(** * Cursor pagination: the cursor codec and the page builder

    A shallow embedding of

    - [CursorPaginator] (shared/utils/cursor-pagination.util.ts):
      [encode], [decode], [buildResult], [createIdPaginator];
    - the [Cursor] value object (domain/value-objects/cursor.vo.ts):
      [Cursor.decode], [Cursor.encode], with its zod payload schema;

    together with the parts of the JavaScript platform these functions
    call: strings as sequences of UTF-16 code units, [Buffer] with the
    'utf-8' and 'base64url' encodings, [JSON.stringify] of the cursor
    payload, [JSON.parse], exceptions and [try]/[catch], and arrays as
    mutable objects in a store. *)

From Stdlib Require Import ZArith List Bool Lia String Ascii Sorted.
Import ListNotations.
Local Open Scope Z_scope.

(** ** JavaScript strings *)

(** A string is a sequence of 16-bit code units. *)
Definition jsstring := list Z.

Definition code_unit (c : Z) : Prop := 0 <= c < 65536.

Definition is_jsstring (s : jsstring) : Prop := Forall code_unit s.

(** String literals of the source, written as ASCII text. *)
Definition str (s : string) : jsstring :=
  map (fun a => Z.of_N (N_of_ascii a)) (list_ascii_of_string s).

Fixpoint jsstring_eqb (s t : jsstring) : bool :=
  match s, t with
  | [], [] => true
  | c :: s', d :: t' => (c =? d) && jsstring_eqb s' t'
  | _, _ => false
  end.

Definition is_high_surrogate (c : Z) : bool := (55296 <=? c) && (c <=? 56319).
Definition is_low_surrogate (c : Z) : bool := (56320 <=? c) && (c <=? 57343).

(** ** Exceptions *)

Inductive JsError : Type := SyntaxError | TypeError | ZodError.

(** The outcome of evaluating an expression: a value, or a thrown error. *)
Inductive Completion (A : Type) : Type :=
| Normal (a : A)
| Throw (e : JsError).
Arguments Normal {A} a.
Arguments Throw {A} e.

Definition bind {A B} (c : Completion A) (k : A -> Completion B) : Completion B :=
  match c with
  | Normal a => k a
  | Throw e => Throw e
  end.

Notation "x <- c ;; k" := (bind c (fun x => k))
  (at level 61, c at next level, right associativity).

(** [try { body } catch { handler }] *)
Definition try_catch {A} (body : Completion A) (handler : Completion A) : Completion A :=
  match body with
  | Normal a => Normal a
  | Throw _ => handler
  end.

(** ** Buffer: the 'base64url' encoding *)

Module Base64Url.

Definition is_byte (b : Z) : Prop := 0 <= b < 256.

(** The URL-safe alphabet: A-Z a-z 0-9 - _ *)
Definition alphabet (s : Z) : Z :=
  if s <? 26 then 65 + s
  else if s <? 52 then 97 + (s - 26)
  else if s <? 62 then 48 + (s - 52)
  else if s =? 62 then 45
  else 95.

(** The decoding table accepts the URL-safe and the standard alphabet. *)
Definition unbase64 (c : Z) : option Z :=
  if (65 <=? c) && (c <=? 90) then Some (c - 65)
  else if (97 <=? c) && (c <=? 122) then Some (c - 71)
  else if (48 <=? c) && (c <=? 57) then Some (c + 4)
  else if (c =? 45) || (c =? 43) then Some 62
  else if (c =? 95) || (c =? 47) then Some 63
  else None.

(** Three bytes give four 6-bit groups; a last group of one or two bytes
    gives two or three, and no padding is written. *)
Fixpoint sextets_of_bytes (bs : list Z) : list Z :=
  match bs with
  | b0 :: b1 :: b2 :: r =>
      b0 / 4 :: (b0 mod 4) * 16 + b1 / 16 :: (b1 mod 16) * 4 + b2 / 64 :: b2 mod 64
      :: sextets_of_bytes r
  | [b0; b1] => [b0 / 4; (b0 mod 4) * 16 + b1 / 16; (b1 mod 16) * 4]
  | [b0] => [b0 / 4; (b0 mod 4) * 16]
  | [] => []
  end.

(** [buf.toString('base64url')] *)
Definition encode (bs : list Z) : jsstring := map alphabet (sextets_of_bytes bs).

(** The decoder is lenient.  It looks a code unit up by its low byte; a
    character outside the alphabet is skipped, and the equals sign (61)
    ends the input. *)
Fixpoint sextets_of_chars (s : jsstring) : list Z :=
  match s with
  | [] => []
  | c :: r =>
      match unbase64 (c mod 256) with
      | Some x => x :: sextets_of_chars r
      | None => if c mod 256 =? 61 then [] else sextets_of_chars r
      end
  end.

Fixpoint bytes_of_sextets (ss : list Z) : list Z :=
  match ss with
  | s0 :: s1 :: s2 :: s3 :: r =>
      s0 * 4 + s1 / 16 :: (s1 mod 16) * 16 + s2 / 4 :: (s2 mod 4) * 64 + s3
      :: bytes_of_sextets r
  | [s0; s1; s2] => [s0 * 4 + s1 / 16; (s1 mod 16) * 16 + s2 / 4]
  | [s0; s1] => [s0 * 4 + s1 / 16]
  | _ => []
  end.

(** [Buffer.from(s, 'base64url')]: never fails. *)
Definition decode (s : jsstring) : list Z := bytes_of_sextets (sextets_of_chars s).

End Base64Url.

(** ** Buffer: the 'utf-8' encoding *)

Module Utf8.

(** [Buffer.from(s)]: the UTF-8 bytes of a string.  A surrogate pair is
    one code point of four bytes; a surrogate without its partner is
    written as U+FFFD. *)
Fixpoint encode (s : jsstring) : list Z :=
  match s with
  | [] => []
  | c :: r =>
      if c <? 128 then c :: encode r
      else if c <? 2048 then 192 + c / 64 :: 128 + c mod 64 :: encode r
      else if is_high_surrogate c then
        match r with
        | d :: r' =>
            if is_low_surrogate d then
              let cp := 65536 + (c - 55296) * 1024 + (d - 56320) in
              240 + cp / 262144 :: 128 + (cp / 4096) mod 64
                :: 128 + (cp / 64) mod 64 :: 128 + cp mod 64 :: encode r'
            else 239 :: 191 :: 189 :: encode r
        | [] => [239; 191; 189]
        end
      else if is_low_surrogate c then 239 :: 191 :: 189 :: encode r
      else 224 + c / 4096 :: 128 + (c / 64) mod 64 :: 128 + c mod 64 :: encode r
  end.

Definition in_range (lo hi b : Z) : bool := (lo <=? b) && (b <=? hi).

(** [buf.toString('utf-8')]: never fails; every maximal ill-formed part
    of the input is replaced by U+FFFD. *)
Fixpoint decode (bs : list Z) : jsstring :=
  match bs with
  | [] => []
  | b0 :: r0 =>
      if in_range 0 127 b0 then b0 :: decode r0
      else if in_range 194 223 b0 then
        match r0 with
        | b1 :: r1 =>
            if in_range 128 191 b1 then (b0 - 192) * 64 + (b1 - 128) :: decode r1
            else 65533 :: decode r0
        | [] => [65533]
        end
      else if in_range 224 239 b0 then
        match r0 with
        | b1 :: r1 =>
            if in_range (if b0 =? 224 then 160 else 128) (if b0 =? 237 then 159 else 191) b1
            then
              match r1 with
              | b2 :: r2 =>
                  if in_range 128 191 b2
                  then ((b0 - 224) * 64 + (b1 - 128)) * 64 + (b2 - 128) :: decode r2
                  else 65533 :: decode r1
              | [] => [65533]
              end
            else 65533 :: decode r0
        | [] => [65533]
        end
      else if in_range 240 244 b0 then
        match r0 with
        | b1 :: r1 =>
            if in_range (if b0 =? 240 then 144 else 128) (if b0 =? 244 then 143 else 191) b1
            then
              match r1 with
              | b2 :: r2 =>
                  if in_range 128 191 b2 then
                    match r2 with
                    | b3 :: r3 =>
                        if in_range 128 191 b3 then
                          let cp := (((b0 - 240) * 64 + (b1 - 128)) * 64 + (b2 - 128)) * 64
                                    + (b3 - 128) in
                          55296 + (cp - 65536) / 1024 :: 56320 + (cp - 65536) mod 1024
                            :: decode r3
                        else 65533 :: decode r2
                    | [] => [65533]
                    end
                  else 65533 :: decode r1
              | [] => [65533]
              end
            else 65533 :: decode r0
        | [] => [65533]
        end
      else 65533 :: decode r0
  end.

End Utf8.

(** ** JavaScript values *)

(** The values [JSON.parse] can return, and [undefined].  A number is
    kept as the text of its literal; an object is the list of its
    members in source order (a later member with the same key wins). *)
#[warnings="-register-all"] Inductive JsValue : Type :=
| JUndefined
| JNull
| JBool (b : bool)
| JNumber (literal : jsstring)
| JString (s : jsstring)
| JArray (elements : list JsValue)
| JObject (members : list (jsstring * JsValue)).

Fixpoint own_property (members : list (jsstring * JsValue)) (name : jsstring)
  : option JsValue :=
  match members with
  | [] => None
  | (k, v) :: r =>
      match own_property r name with
      | Some x => Some x
      | None => if jsstring_eqb k name then Some v else None
      end
  end.

(** [o.name], for a name that no built-in prototype defines (as [v] and
    [d]): reading a property of [null] or [undefined] throws a
    TypeError, an object gives its own property, and every other value
    gives [undefined]. *)
Definition property (o : JsValue) (name : jsstring) : Completion JsValue :=
  match o with
  | JUndefined | JNull => Throw TypeError
  | JObject members =>
      match own_property members name with
      | Some x => Normal x
      | None => Normal JUndefined
      end
  | _ => Normal JUndefined
  end.

(** [x === 'literal'] *)
Definition strict_equals_string (x : JsValue) (literal : jsstring) : bool :=
  match x with
  | JString s => jsstring_eqb s literal
  | _ => false
  end.

(** [x ?? y] *)
Definition nullish_coalesce (x y : JsValue) : JsValue :=
  match x with
  | JUndefined | JNull => y
  | _ => x
  end.

(** ** JSON *)

Module JSON.

Definition hex_digit (n : Z) : Z := if n <? 10 then 48 + n else 87 + n.

Definition hex_value (c : Z) : option Z :=
  if (48 <=? c) && (c <=? 57) then Some (c - 48)
  else if (97 <=? c) && (c <=? 102) then Some (c - 87)
  else if (65 <=? c) && (c <=? 70) then Some (c - 55)
  else None.

(** [\uXXXX], in lower-case hexadecimal *)
Definition UnicodeEscape (c : Z) : jsstring :=
  [92; 117; hex_digit (c / 4096); hex_digit ((c / 256) mod 16);
   hex_digit ((c / 16) mod 16); hex_digit (c mod 16)].

(** The characters of a quoted string: the short escapes, [\uXXXX] for
    the other control characters and for a surrogate that is not half of
    a pair, and every other code point as it is. *)
Fixpoint quote_chars (s : jsstring) : jsstring :=
  match s with
  | [] => []
  | c :: r =>
      if is_high_surrogate c then
        match r with
        | d :: r' =>
            if is_low_surrogate d then c :: d :: quote_chars r'
            else UnicodeEscape c ++ quote_chars r
        | [] => UnicodeEscape c
        end
      else if is_low_surrogate c then UnicodeEscape c ++ quote_chars r
      else if c =? 8 then 92 :: 98 :: quote_chars r
      else if c =? 9 then 92 :: 116 :: quote_chars r
      else if c =? 10 then 92 :: 110 :: quote_chars r
      else if c =? 12 then 92 :: 102 :: quote_chars r
      else if c =? 13 then 92 :: 114 :: quote_chars r
      else if c =? 34 then 92 :: 34 :: quote_chars r
      else if c =? 92 then 92 :: 92 :: quote_chars r
      else if c <? 32 then UnicodeEscape c ++ quote_chars r
      else c :: quote_chars r
  end.

Definition QuoteJSONString (s : jsstring) : jsstring := 34 :: quote_chars s ++ [34].

Fixpoint join (sep : jsstring) (parts : list jsstring) : jsstring :=
  match parts with
  | [] => []
  | [p] => p
  | p :: rest => p ++ sep ++ join sep rest
  end.

(** [JSON.stringify(o)] for an object literal [o] whose properties all
    hold strings, as the cursor payload [{ v: ..., d: ... }]. *)
Definition stringify (members : list (jsstring * jsstring)) : jsstring :=
  [123]
  ++ join [44] (map (fun m => QuoteJSONString (fst m) ++ [58] ++ QuoteJSONString (snd m))
                    members)
  ++ [125].

(** *** JSON.parse: the lexical grammar *)

Inductive token : Type :=
| TLBrace | TRBrace | TLBracket | TRBracket | TColon | TComma
| TString (s : jsstring)
| TNumber (literal : jsstring)
| TTrue | TFalse | TNull.

(** Where a number literal stands: an optional minus sign; then a zero,
    or a digit from 1 to 9 and any digits; then, optionally, a point and
    one digit or more; then, optionally, e or E, an optional sign and one
    digit or more. *)
Inductive number_state : Type :=
| NMinus | NZero | NInt | NDot | NFrac | NExp | NExpSign | NExpDigits.

Definition number_complete (st : number_state) : bool :=
  match st with
  | NZero | NInt | NFrac | NExpDigits => true
  | _ => false
  end.

Definition is_digit (c : Z) : bool := (48 <=? c) && (c <=? 57).

(** [e] or [E] *)
Definition is_exponent (c : Z) : bool := (c =? 101) || (c =? 69).

(** [Some (Some st)]: the literal goes on; [Some None]: it ended before
    [c]; [None]: [c] cannot follow. *)
Definition number_step (st : number_state) (c : Z) : option (option number_state) :=
  match st with
  | NMinus =>
      if c =? 48 then Some (Some NZero)
      else if is_digit c then Some (Some NInt) else None
  | NZero =>
      if c =? 46 then Some (Some NDot)
      else if is_exponent c then Some (Some NExp) else Some None
  | NInt =>
      if is_digit c then Some (Some NInt)
      else if c =? 46 then Some (Some NDot)
      else if is_exponent c then Some (Some NExp) else Some None
  | NDot => if is_digit c then Some (Some NFrac) else None
  | NFrac =>
      if is_digit c then Some (Some NFrac)
      else if is_exponent c then Some (Some NExp) else Some None
  | NExp =>
      if (c =? 43) || (c =? 45) then Some (Some NExpSign)
      else if is_digit c then Some (Some NExpDigits) else None
  | NExpSign => if is_digit c then Some (Some NExpDigits) else None
  | NExpDigits => if is_digit c then Some (Some NExpDigits) else Some None
  end.

Inductive lex_mode : Type :=
| LStart
| LString (acc : jsstring)
| LEscape (acc : jsstring)
| LUnicode (acc : jsstring) (digits : nat) (value : Z)
| LNumber (st : number_state) (acc : jsstring)
| LWord (expected : jsstring) (t : token).

(** Space, tab, line feed, carriage return *)
Definition is_whitespace (c : Z) : bool :=
  (c =? 32) || (c =? 9) || (c =? 10) || (c =? 13).

(** The first character of a token: a brace, a bracket, a colon or a
    comma; the quotation mark (34) of a string; the minus sign (45) or a
    digit of a number; [t], [f], [n] of the words true, false, null. *)
Definition lex_start (c : Z) : option (list token * lex_mode) :=
  if is_whitespace c then Some ([], LStart)
  else if c =? 123 then Some ([TLBrace], LStart)
  else if c =? 125 then Some ([TRBrace], LStart)
  else if c =? 91 then Some ([TLBracket], LStart)
  else if c =? 93 then Some ([TRBracket], LStart)
  else if c =? 58 then Some ([TColon], LStart)
  else if c =? 44 then Some ([TComma], LStart)
  else if c =? 34 then Some ([], LString [])
  else if c =? 45 then Some ([], LNumber NMinus [c])
  else if c =? 48 then Some ([], LNumber NZero [c])
  else if is_digit c then Some ([], LNumber NInt [c])
  else if c =? 116 then Some ([], LWord (str "rue") TTrue)
  else if c =? 102 then Some ([], LWord (str "alse") TFalse)
  else if c =? 110 then Some ([], LWord (str "ull") TNull)
  else None.

(** The character after a backslash: the quotation mark, the backslash
    and the slash stand for themselves; [b], [f], [n], [r], [t] for the
    control characters 8, 12, 10, 13, 9; [u] starts four hexadecimal
    digits. *)
Definition lex_escape (acc : jsstring) (c : Z) : option (list token * lex_mode) :=
  if c =? 34 then Some ([], LString (34 :: acc))
  else if c =? 92 then Some ([], LString (92 :: acc))
  else if c =? 47 then Some ([], LString (47 :: acc))
  else if c =? 98 then Some ([], LString (8 :: acc))
  else if c =? 102 then Some ([], LString (12 :: acc))
  else if c =? 110 then Some ([], LString (10 :: acc))
  else if c =? 114 then Some ([], LString (13 :: acc))
  else if c =? 116 then Some ([], LString (9 :: acc))
  else if c =? 117 then Some ([], LUnicode acc 0 0)
  else None.

(** One character of the text; [None] is a SyntaxError.  Inside a
    string the quotation mark (34) ends it, the backslash (92) starts an
    escape, and a control character is an error. *)
Definition lex_step (mode : lex_mode) (c : Z) : option (list token * lex_mode) :=
  match mode with
  | LStart => lex_start c
  | LString acc =>
      if c =? 34 then Some ([TString (rev acc)], LStart)
      else if c =? 92 then Some ([], LEscape acc)
      else if c <? 32 then None
      else Some ([], LString (c :: acc))
  | LEscape acc => lex_escape acc c
  | LUnicode acc digits value =>
      match hex_value c with
      | Some h =>
          if Nat.eqb digits 3 then Some ([], LString (value * 16 + h :: acc))
          else Some ([], LUnicode acc (S digits) (value * 16 + h))
      | None => None
      end
  | LNumber st acc =>
      match number_step st c with
      | Some (Some st') => Some ([], LNumber st' (c :: acc))
      | Some None =>
          match lex_start c with
          | Some (toks, mode') => Some (TNumber (rev acc) :: toks, mode')
          | None => None
          end
      | None => None
      end
  | LWord expected t =>
      match expected with
      | [x] => if c =? x then Some ([t], LStart) else None
      | x :: rest => if c =? x then Some ([], LWord rest t) else None
      | [] => None
      end
  end.

Definition lex_end (mode : lex_mode) : option (list token) :=
  match mode with
  | LStart => Some []
  | LNumber st acc => if number_complete st then Some [TNumber (rev acc)] else None
  | _ => None
  end.

Fixpoint lex (mode : lex_mode) (text : jsstring) : option (list token) :=
  match text with
  | [] => lex_end mode
  | c :: r =>
      match lex_step mode c with
      | Some (toks, mode') =>
          match lex mode' r with
          | Some rest => Some (toks ++ rest)
          | None => None
          end
      | None => None
      end
  end.

(** *** JSON.parse: the syntactic grammar *)

(** A container whose members are being read: an array with the elements
    read so far, or an object with the members read so far and the key
    whose value is being read (latest first). *)
#[warnings="-register-all"] Inductive frame : Type :=
| FArray (elements : list JsValue)
| FObject (members : list (jsstring * JsValue)) (key : jsstring).

Inductive parse_mode : Type :=
| PValue
| PArrayStart
| PObjectStart
| PObjectKey (members : list (jsstring * JsValue))
| PObjectColon (members : list (jsstring * JsValue)) (key : jsstring)
| PDone (v : JsValue).

Definition parse_value (t : token) (stack : list frame) : option (parse_mode * list frame) :=
  match t with
  | TString s => Some (PDone (JString s), stack)
  | TNumber n => Some (PDone (JNumber n), stack)
  | TTrue => Some (PDone (JBool true), stack)
  | TFalse => Some (PDone (JBool false), stack)
  | TNull => Some (PDone JNull, stack)
  | TLBracket => Some (PArrayStart, stack)
  | TLBrace => Some (PObjectStart, stack)
  | _ => None
  end.

(** One token; [None] is a SyntaxError. *)
Definition parse_step (mode : parse_mode) (stack : list frame) (t : token)
  : option (parse_mode * list frame) :=
  match mode with
  | PValue => parse_value t stack
  | PArrayStart =>
      match t with
      | TRBracket => Some (PDone (JArray []), stack)
      | _ => parse_value t (FArray [] :: stack)
      end
  | PObjectStart =>
      match t with
      | TRBrace => Some (PDone (JObject []), stack)
      | TString k => Some (PObjectColon [] k, stack)
      | _ => None
      end
  | PObjectKey members =>
      match t with
      | TString k => Some (PObjectColon members k, stack)
      | _ => None
      end
  | PObjectColon members k =>
      match t with
      | TColon => Some (PValue, FObject members k :: stack)
      | _ => None
      end
  | PDone v =>
      match stack, t with
      | FArray elements :: stack', TComma => Some (PValue, FArray (v :: elements) :: stack')
      | FArray elements :: stack', TRBracket =>
          Some (PDone (JArray (rev (v :: elements))), stack')
      | FObject members k :: stack', TComma => Some (PObjectKey ((k, v) :: members), stack')
      | FObject members k :: stack', TRBrace =>
          Some (PDone (JObject (rev ((k, v) :: members))), stack')
      | _, _ => None
      end
  end.

Fixpoint parse_tokens (mode : parse_mode) (stack : list frame) (ts : list token)
  : option JsValue :=
  match ts with
  | [] =>
      match mode, stack with
      | PDone v, [] => Some v
      | _, _ => None
      end
  | t :: r =>
      match parse_step mode stack t with
      | Some (mode', stack') => parse_tokens mode' stack' r
      | None => None
      end
  end.

(** [JSON.parse(text)] *)
Definition parse (text : jsstring) : Completion JsValue :=
  match lex LStart text with
  | Some ts =>
      match parse_tokens PValue [] ts with
      | Some v => Normal v
      | None => Throw SyntaxError
      end
  | None => Throw SyntaxError
  end.

End JSON.

(** ** The cursor value object (domain/value-objects/cursor.vo.ts) *)

(** [type CursorDirection = 'forward' | 'backward'] *)
Inductive CursorDirection : Type := forward | backward.

Definition direction_literal (d : CursorDirection) : jsstring :=
  match d with
  | forward => str "forward"
  | backward => str "backward"
  end.

Module Cursor.

(** [z.string()] *)
Definition z_string (x : JsValue) : Completion jsstring :=
  match x with
  | JString s => Normal s
  | _ => Throw ZodError
  end.

(** [z.enum(['forward', 'backward'])] *)
Definition z_enum_direction (x : JsValue) : Completion CursorDirection :=
  match x with
  | JString s =>
      if jsstring_eqb s (str "forward") then Normal forward
      else if jsstring_eqb s (str "backward") then Normal backward
      else Throw ZodError
  | _ => Throw ZodError
  end.

(** What [cursorPayloadSchema.parse] returns: [{ v: string, d: CursorDirection }]. *)
Record Payload : Type := { v : jsstring; d : CursorDirection }.

Definition shape_field (members : list (jsstring * JsValue)) (name : jsstring) : JsValue :=
  match own_property members name with
  | Some x => x
  | None => JUndefined
  end.

(** [cursorPayloadSchema.parse(x)], for
    [cursorPayloadSchema = z.object({ v: z.string(), d: z.enum(['forward', 'backward']) })]:
    the input has to be an object that is not an array, [v] a string and
    [d] one of the two literals; other keys are dropped. *)
Definition cursorPayloadSchema_parse (x : JsValue) : Completion Payload :=
  match x with
  | JObject members =>
      v <- z_string (shape_field members (str "v")) ;;
      d <- z_enum_direction (shape_field members (str "d")) ;;
      Normal {| v := v; d := d |}
  | _ => Throw ZodError
  end.

(** [class Cursor], with its two private fields *)
Record Cursor : Type := { value : jsstring; direction : CursorDirection }.

(** [Cursor.decode(encoded)] *)
Definition decode (encoded : jsstring) : Completion (option Cursor) :=
  try_catch
    (let payload := Utf8.decode (Base64Url.decode encoded) in
     json <- JSON.parse payload ;;
     parsed <- cursorPayloadSchema_parse json ;;
     Normal (Some {| value := v parsed; direction := d parsed |}))
    (Normal None).

(** [cursor.encode()] *)
Definition encode (c : Cursor) : jsstring :=
  let payload :=
    JSON.stringify [(str "v", value c); (str "d", direction_literal (direction c))] in
  Base64Url.encode (Utf8.encode payload).

(** [cursor.equals(other)] *)
Definition equals (c other : Cursor) : bool :=
  jsstring_eqb (value c) (value other)
  && jsstring_eqb (direction_literal (direction c)) (direction_literal (direction other)).

(** [cursor.withDirection(direction)] *)
Definition withDirection (c : Cursor) (direction : CursorDirection) : Cursor :=
  {| value := value c; direction := direction |}.

(** [cursor.toString()]: the text [Cursor(direction: value)] *)
Definition toString (c : Cursor) : jsstring :=
  str "Cursor(" ++ direction_literal (direction c) ++ str ": " ++ value c ++ str ")".

(** [Cursor.forward(value)] and [Cursor.backward(value)] *)
Definition forward (value : jsstring) : Cursor := {| value := value; direction := forward |}.
Definition backward (value : jsstring) : Cursor := {| value := value; direction := backward |}.

End Cursor.

(** ** Arrays *)

(** An array is an object: a variable holds a reference to it, and two
    variables may hold the same reference.  The store maps a reference
    to the elements of its array. *)
Definition ref := nat.

Section Store.
Context {T : Type}.

Definition store := list (list T).

(** A computation that reads and writes the store and may throw. *)
Definition M (A : Type) : Type := store -> Completion (A * store).

Definition ret {A} (a : A) : M A := fun h => Normal (a, h).

Definition mbind {A B} (m : M A) (k : A -> M B) : M B :=
  fun h =>
    match m h with
    | Normal (a, h') => k a h'
    | Throw e => Throw e
    end.

Definition lift {A} (c : Completion A) : M A :=
  fun h =>
    match c with
    | Normal a => Normal (a, h)
    | Throw e => Throw e
    end.

Definition elements (h : store) (a : ref) : option (list T) := nth_error h a.

Fixpoint store_update (h : store) (a : ref) (l : list T) : store :=
  match h, a with
  | [], _ => []
  | _ :: h', O => l :: h'
  | x :: h', S a' => x :: store_update h' a' l
  end.

(** A reference that denotes no array stands for a value that is not an
    array; reading its properties throws. *)
Definition with_array {A} (a : ref) (k : list T -> store -> Completion (A * store)) : M A :=
  fun h =>
    match elements h a with
    | Some l => k l h
    | None => Throw TypeError
    end.

(** [a.length] *)
Definition array_length (a : ref) : M Z :=
  with_array a (fun l h => Normal (Z.of_nat (List.length l), h)).

(** [a[i]]: [undefined] when [i] is not an index of [a] *)
Definition array_get (a : ref) (i : Z) : M (option T) :=
  with_array a (fun l h => Normal ((if i <? 0 then None else nth_error l (Z.to_nat i)), h)).

(** The elements [a.slice(start, end)] copies: a negative bound counts
    from the end, and both are clamped to the array. *)
Definition slice (l : list T) (start end_ : Z) : list T :=
  let len := Z.of_nat (List.length l) in
  let k := if start <? 0 then Z.max (len + start) 0 else Z.min start len in
  let final := if end_ <? 0 then Z.max (len + end_) 0 else Z.min end_ len in
  firstn (Z.to_nat (Z.max (final - k) 0)) (skipn (Z.to_nat k) l).

(** [a.slice(start, end)]: a new array *)
Definition array_slice (a : ref) (start end_ : Z) : M ref :=
  with_array a (fun l h => Normal (List.length h, h ++ [slice l start end_])).

(** [a.reverse()]: reverses [a] in place and returns [a] *)
Definition array_reverse (a : ref) : M ref :=
  with_array a (fun l h => Normal (a, store_update h a (rev l))).

End Store.
Arguments store T : clear implicits.
Arguments M T A : clear implicits.

Notation "x <~ m ;; k" := (mbind m (fun x => k))
  (at level 61, m at next level, right associativity).

(** ** The paginator (shared/utils/cursor-pagination.util.ts) *)

(** [interface DecodedCursor<T>].  The direction is whatever the token's
    JSON holds under [d]: [decode] does not check it. *)
Record DecodedCursor (T : Type) : Type := { value : T; direction : JsValue }.
Arguments value {T} _.
Arguments direction {T} _.

(** [interface CursorPaginationOptions]; an optional property that is
    absent ([undefined]) is [None]. *)
Record CursorPaginationOptions : Type := {
  limit : Z;
  cursor : option jsstring;
  defaultDirection : option CursorDirection
}.

(** The [pagination] part of [interface CursorPaginatedResult<T>]; a
    cursor that is [null] is [None]. *)
Record Pagination : Type := {
  nextCursor : option jsstring;
  prevCursor : option jsstring;
  hasNextPage : bool;
  hasPrevPage : bool;
  count : Z
}.

(** [interface CursorPaginatedResult<T>]; [data] is a reference to an array. *)
Record CursorPaginatedResult : Type := { data : ref; pagination : Pagination }.

(** [class CursorPaginator<TCursor, TEntity>], after its constructor has
    run.  [cursorKey] names a property of the entity; the embedding takes
    the function that reads it, [entity[this.cursorKey] as TCursor].
    TypeScript gives [deserializeCursor] the type [(value: string) =>
    TCursor], but [decode] applies it to [parsed.v], which is whatever
    the token's JSON holds under [v]: the cast of the parsed payload is
    not checked.  So [deserializeCursor] takes every value, it may
    throw, and the type of what it returns at run time is [TDecoded]. *)
Record CursorPaginator (TCursor TDecoded TEntity : Type) : Type := {
  cursorKey : TEntity -> TCursor;
  serializeCursor : TCursor -> jsstring;
  deserializeCursor : JsValue -> Completion TDecoded
}.
Arguments cursorKey {TCursor TDecoded TEntity} _ _.
Arguments serializeCursor {TCursor TDecoded TEntity} _ _.
Arguments deserializeCursor {TCursor TDecoded TEntity} _ _.

Section CursorPaginator.
Context {TCursor TDecoded TEntity : Type}.
Variable this : CursorPaginator TCursor TDecoded TEntity.

(** [encode(value, direction)] *)
Definition encode (value : TCursor) (direction : CursorDirection) : jsstring :=
  let payload :=
    JSON.stringify [(str "v", serializeCursor this value);
                    (str "d", direction_literal direction)] in
  Base64Url.encode (Utf8.encode payload).

(** [decode(cursor)]; [null] is [None]. *)
Definition decode (cursor : jsstring) : Completion (option (DecodedCursor TDecoded)) :=
  try_catch
    (let payload := Utf8.decode (Base64Url.decode cursor) in
     parsed <- JSON.parse payload ;;
     parsed_v <- property parsed (str "v") ;;
     value <- deserializeCursor this parsed_v ;;
     parsed_d <- property parsed (str "d") ;;
     Normal (Some {| value := value; direction := parsed_d |}))
    (Normal None).

(** The constant [direction] of [buildResult]:
    [(cursor ? this.decode(cursor)?.direction : null)
       ?? options.defaultDirection ?? 'forward'].
    An empty string is falsy, as [undefined] is. *)
Definition effectiveDirection (options : CursorPaginationOptions) : Completion JsValue :=
  fromCursor <-
    match cursor options with
    | Some (c :: s) =>
        decoded <- decode (c :: s) ;;
        Normal match decoded with
               | Some dc => direction dc
               | None => JUndefined
               end
    | _ => Normal JNull
    end ;;
  Normal (nullish_coalesce
            (nullish_coalesce fromCursor
               match defaultDirection options with
               | Some d => JString (direction_literal d)
               | None => JUndefined
               end)
            (JString (str "forward"))).

(** [if (flag && item) { c = this.encode(item[this.cursorKey], direction) }],
    for [c] that holds [null] before.  An entity is an object, so it is
    truthy; [item] is [undefined] when the page is empty. *)
Definition cursorOf (flag : bool) (item : option TEntity) (direction : CursorDirection)
  : option jsstring :=
  match item with
  | Some e => if flag then Some (encode (cursorKey this e) direction) else None
  | None => None
  end.

(** [buildResult(entities, options)] *)
Definition buildResult (entities : ref) (options : CursorPaginationOptions)
  : M TEntity CursorPaginatedResult :=
  let limit := limit options in
  let cursor := cursor options in
  direction <~ lift (effectiveDirection options) ;;
  entitiesLength <~ array_length entities ;;
  let hasMore := limit <? entitiesLength in
  items <~ (if hasMore then array_slice entities 0 limit else ret entities) ;;
  data <~ (if strict_equals_string direction (str "backward")
           then array_reverse items else ret items) ;;
  firstItem <~ array_get data 0 ;;
  dataLength <~ array_length data ;;
  lastItem <~ array_get data (dataLength - 1) ;;
  let cursorDefined := match cursor with Some _ => true | None => false end in
  let '(nextCursor, prevCursor, hasNextPage, hasPrevPage) :=
    if 0 <? dataLength then
      if strict_equals_string direction (str "forward") then
        let hasNextPage := hasMore in
        let hasPrevPage := cursorDefined in
        (cursorOf hasNextPage lastItem forward, cursorOf hasPrevPage firstItem backward,
         hasNextPage, hasPrevPage)
      else
        let hasNextPage := cursorDefined in
        let hasPrevPage := hasMore in
        (cursorOf hasNextPage lastItem forward, cursorOf hasPrevPage firstItem backward,
         hasNextPage, hasPrevPage)
    else (None, None, false, false) in
  ret {| data := data;
         pagination := {| nextCursor := nextCursor; prevCursor := prevCursor;
                          hasNextPage := hasNextPage; hasPrevPage := hasPrevPage;
                          count := dataLength |} |}.

End CursorPaginator.

(** [createIdPaginator<TEntity extends { id: string }>()]: the key is
    [id], and both strategies are the identity.  [deserialize] returns
    the value it is given, a string when the token holds one. *)
Definition createIdPaginator {TEntity : Type} (id : TEntity -> jsstring)
  : CursorPaginator jsstring JsValue TEntity :=
  {| cursorKey := id;
     serializeCursor := fun v => v;
     deserializeCursor := fun v => Normal v |}.

(** [interface TestEntity] of the unit tests (without [createdAt]) *)
Record TestEntity : Type := { id : jsstring; name : jsstring }.

(** The decimal digits of a number of at most [fuel] digits, before [acc] *)
Fixpoint decimal_digits (fuel : nat) (n : Z) (acc : jsstring) : jsstring :=
  match fuel with
  | O => acc
  | S fuel' =>
      if n <? 10 then 48 + n :: acc
      else decimal_digits fuel' (n / 10) (48 + n mod 10 :: acc)
  end.

Definition decimal (n : Z) : jsstring := decimal_digits 20 n [].

(** The entity [{ id: `id-${i}`, name: `Entity ${i}` }], for [i] below 10^20 *)
Definition createEntity (i : Z) : TestEntity :=
  {| id := str "id-" ++ decimal i; name := str "Entity " ++ decimal i |}.

(** [createEntities(count)] of the unit tests: the entities [id-1] to
    [id-count] *)
Definition createEntities (count : nat) : list TestEntity :=
  map (fun i => createEntity (Z.of_nat i)) (seq 1 count).

(** ** Notions the statements use *)

(** The last element of a list, if any: [l[l.length - 1]]. *)
Definition last_error {A} (l : list A) : option A := nth_error l (List.length l - 1).

(** [entities.length > limit] *)
Definition overfetched {A} (es : list A) (limit : Z) : bool :=
  limit <? Z.of_nat (List.length es).

(** The batch without the element fetched to look ahead. *)
Definition trimmed {A} (es : list A) (limit : Z) : list A :=
  if overfetched es limit then slice es 0 limit else es.

Definition is_backward (dir : JsValue) : bool := strict_equals_string dir (str "backward").
Definition is_forward (dir : JsValue) : bool := strict_equals_string dir (str "forward").

(** The elements of the page, in the order they are presented. *)
Definition presented {A} (dir : JsValue) (items : list A) : list A :=
  if is_backward dir then rev items else items.

Definition cursorDefined (options : CursorPaginationOptions) : bool :=
  match cursor options with
  | Some _ => true
  | None => false
  end.

(** The direction configured as the default, [forward] when none is. *)
Definition configuredDirection (options : CursorPaginationOptions) : JsValue :=
  match defaultDirection options with
  | Some d => JString (direction_literal d)
  | None => JString (str "forward")
  end.

(** A call of [buildResult] on the array [entities], in the store [h],
    returns [r] and leaves the store [h']; the direction resolved to
    [dir]; the array [r.data] holds [page]. *)
Definition returns_page {TCursor TDecoded TEntity : Type}
    (this : CursorPaginator TCursor TDecoded TEntity)
    (h : store TEntity) (entities : ref) (options : CursorPaginationOptions)
    (dir : JsValue) (r : CursorPaginatedResult) (h' : store TEntity) (page : list TEntity)
  : Prop :=
  effectiveDirection this options = Normal dir /\
  buildResult this entities options h = Normal (r, h') /\
  elements h' (data r) = Some page.

(** Well-formed UTF-16: every surrogate is half of a pair. *)
Inductive WellFormed : jsstring -> Prop :=
| wf_nil : WellFormed []
| wf_unit c r :
    0 <= c < 65536 -> ~ 55296 <= c <= 57343 -> WellFormed r -> WellFormed (c :: r)
| wf_pair c d r :
    55296 <= c <= 56319 -> 56320 <= d <= 57343 -> WellFormed r -> WellFormed (c :: d :: r).

(** JSON text in examples is written with ' for the quotation mark. *)
Definition json_text (s : string) : jsstring :=
  map (fun c => if c =? 39 then 34 else c) (str s).


(** ** Numbers *)

(** A number of the source is an IEEE 754 double; the embedding holds
    the integers among them as [Z].  Every integer up to 2^53 in absolute
    value is a double; above, a double is a 53-bit integer times a power
    of two.  [round_double x] is the double nearest to the integer [x],
    a tie going to the even one of the two. *)
Definition round_double (x : Z) : Z :=
  if Z.abs x <=? 2 ^ 53 then x
  else
    let e := Z.log2 (Z.abs x) - 52 in
    let q := Z.abs x / 2 ^ e in
    let r := Z.abs x mod 2 ^ e in
    let half := 2 ^ (e - 1) in
    let q' := if r <? half then q
              else if half <? r then q + 1
              else if Z.even q then q else q + 1 in
    Z.sgn x * (q' * 2 ^ e).

(** [a + b] on numbers: the sum, rounded *)
Definition number_add (a b : Z) : Z := round_double (a + b).

(** ** The repositories (infrastructure/database/repositories) *)

(** [new Array]: a new array that holds [l] *)
Definition array_new {T : Type} (l : list T) : M T ref :=
  fun h => Normal (List.length h, h ++ [l]).

(** ['asc' | 'desc'] *)
Inductive SortOrder : Type := asc | desc.

(** [interface QueryOptions<TEntity>], for filter values of type [W]: an
    object is the list of its members, in the order they were written;
    a member of [where] that holds [undefined] holds [None] ([where_]
    stands for [where]). *)
Record QueryOptions (W : Type) : Type := {
  where_ : option (list (jsstring * option W));
  orderBy : option (jsstring * SortOrder);
  includeSoftDeleted : option bool
}.
Arguments where_ {W} _.
Arguments orderBy {W} _.
Arguments includeSoftDeleted {W} _.

(** The value of the last member with the key [name], as reading
    [o[name]] gives it for an object built by assignments in this order. *)
Fixpoint member {V : Type} (o : list (jsstring * V)) (name : jsstring) : option V :=
  match o with
  | [] => None
  | (k, x) :: r =>
      match member r name with
      | Some y => Some y
      | None => if jsstring_eqb k name then Some x else None
      end
  end.

(** The cursor the two repositories read from the request:
    [cursor ? this.paginator.decode(cursor) : null] *)
Definition requestCursor {TCursor TDecoded TEntity : Type}
    (paginator : CursorPaginator TCursor TDecoded TEntity)
    (paginationOptions : CursorPaginationOptions)
  : Completion (option (DecodedCursor TDecoded)) :=
  match cursor paginationOptions with
  | Some (c :: s) => decode paginator (c :: s)
  | _ => Normal None
  end.

(** [decoded?.direction === 'backward' ? 'desc' : 'asc'] *)
Definition fetchOrder {TDecoded : Type} (decoded : option (DecodedCursor TDecoded)) : SortOrder :=
  match decoded with
  | Some dc => if strict_equals_string (direction dc) (str "backward") then desc else asc
  | None => asc
  end.

Module Prisma.
Section PrismaBaseRepository.
Context {TEntity TPrismaModel W : Type}.

(** What a key of a Prisma where clause holds: a value to be equal to,
    [null], or a filter [{ gt: v }] or [{ lt: v }]. *)
Inductive WhereValue : Type :=
| Equals (w : option W)
| IsNull
| Gt (v : JsValue)
| Lt (v : JsValue).

(** The arguments of [findMany] *)
Record FindManyArgs : Type := {
  args_where : list (jsstring * WhereValue);
  args_orderBy : jsstring * SortOrder;
  args_take : Z
}.

(** The model delegate [this.getModel().findMany], which reads the
    database and may fail; [this.toDomain]; and the [id] of an entity,
    the key of the paginator the constructor makes. *)
Variable findMany : FindManyArgs -> Completion (list TPrismaModel).
Variable toDomain : TPrismaModel -> TEntity.
Variable id : TEntity -> jsstring.

Definition paginator : CursorPaginator jsstring JsValue TEntity :=
  {| cursorKey := id;
     serializeCursor := fun v => v;
     deserializeCursor := fun v => Normal v |}.

(** [buildWhereClause(options)] *)
Definition buildWhereClause (options : option (QueryOptions W))
  : list (jsstring * WhereValue) :=
  let where0 : list (jsstring * WhereValue) := [] in
  let where1 :=
    match options with
    | Some o =>
        match where_ o with
        | Some w => where0 ++ List.map (fun m => (fst m, Equals (snd m))) w
        | None => where0
        end
    | None => where0
    end in
  let softDeleted :=
    match options with
    | Some o =>
        match includeSoftDeleted o with
        | Some b => b
        | None => false
        end
    | None => false
    end in
  if negb softDeleted then where1 ++ [(str "deletedAt", IsNull)] else where1.

(** The arguments [findManyPaginated] hands to [findMany] *)
Definition paginatedArgs (paginationOptions : CursorPaginationOptions)
    (queryOptions : option (QueryOptions W)) : Completion FindManyArgs :=
  let limit := limit paginationOptions in
  decoded <- requestCursor paginator paginationOptions ;;
  let where_ := buildWhereClause queryOptions in
  let cursorWhere :=
    match decoded with
    | Some dc =>
        [(str "id", if strict_equals_string (direction dc) (str "forward")
                    then Gt (value dc) else Lt (value dc))]
    | None => []
    end in
  Normal {| args_where := where_ ++ cursorWhere;
            args_orderBy := (str "id", fetchOrder decoded);
            args_take := number_add limit 1 |}.

(** [findManyPaginated(paginationOptions, queryOptions)].  The arrays of
    the call are new; the embedding gives the elements of the array
    [data] beside the result. *)
Definition findManyPaginated (paginationOptions : CursorPaginationOptions)
    (queryOptions : option (QueryOptions W))
  : Completion (CursorPaginatedResult * list TEntity) :=
  args <- paginatedArgs paginationOptions queryOptions ;;
  records <- findMany args ;;
  match (entities <~ array_new (List.map toDomain records) ;;
         buildResult paginator entities paginationOptions) [] with
  | Normal (result, h) =>
      match elements h (data result) with
      | Some page => Normal (result, page)
      | None => Throw TypeError
      end
  | Throw e => Throw e
  end.

End PrismaBaseRepository.
End Prisma.

Module Firestore.
Section FirestoreBaseRepository.
Context {TEntity D W : Type}.

(** A document of a snapshot: [doc.id] and [doc.data()] *)
Record Document : Type := { doc_id : jsstring; doc_data : D }.

(** The calls that build a query, in their order: [where(key, '==',
    value)], [orderBy(field, direction)], [startAfter(value)],
    [limit(n)]. *)
Inductive QueryCall : Type :=
| WhereEquals (key : jsstring) (value : W)
| OrderBy (field : jsstring) (direction : SortOrder)
| StartAfter (value : JsValue)
| Limit (n : Z).

(** [query.get()] on the collection, which reads the database and may
    fail, and [this.toDomain]. *)
Variable get : list QueryCall -> Completion (list Document).
Variable toDomain : jsstring -> D -> TEntity.

(** The paginator of the constructor.  [buildResult] is given the
    objects [{ ...d.data(), id: d.id }], whose [id] is the one of the
    document. *)
Definition paginator : CursorPaginator jsstring JsValue Document :=
  {| cursorKey := doc_id;
     serializeCursor := fun v => v;
     deserializeCursor := fun v => Normal v |}.

(** The filters: one call for each member of [where] that does not hold
    [undefined] *)
Definition whereCalls (queryOptions : option (QueryOptions W)) : list QueryCall :=
  match queryOptions with
  | Some o =>
      match where_ o with
      | Some w =>
          flat_map (fun m => match snd m with
                             | Some value => [WhereEquals (fst m) value]
                             | None => []
                             end) w
      | None => []
      end
  | None => []
  end.

(** The query [findManyPaginated] builds *)
Definition paginatedQuery (paginationOptions : CursorPaginationOptions)
    (queryOptions : option (QueryOptions W)) : Completion (list QueryCall) :=
  let limit := limit paginationOptions in
  decoded <- requestCursor paginator paginationOptions ;;
  let query := whereCalls queryOptions in
  let query := query ++ [OrderBy (str "id") (fetchOrder decoded)] in
  let query :=
    match decoded with
    | Some dc => query ++ [StartAfter (value dc)]
    | None => query
    end in
  Normal (query ++ [Limit (number_add limit 1)]).

(** [findManyPaginated(paginationOptions, queryOptions)]: the object
    returned holds a new array [data], given here by its elements, and
    the [pagination] of [buildResult]. *)
Definition findManyPaginated (paginationOptions : CursorPaginationOptions)
    (queryOptions : option (QueryOptions W))
  : Completion (list TEntity * Pagination) :=
  query <- paginatedQuery paginationOptions queryOptions ;;
  docs <- get query ;;
  let entities := List.map (fun doc => toDomain (doc_id doc) (doc_data doc)) docs in
  match (batch <~ array_new docs ;;
         buildResult paginator batch paginationOptions) [] with
  | Normal (paginatedResult, _) => Normal (entities, pagination paginatedResult)
  | Throw e => Throw e
  end.

End FirestoreBaseRepository.
End Firestore.


(** The value a payload holds under [name]: [undefined] when the payload
    is not an object or has no such member. *)
Definition field_of (payload : JsValue) (name : jsstring) : JsValue :=
  match payload with
  | JObject members => Cursor.shape_field members name
  | _ => JUndefined
  end.

(** The characters of the base64url alphabet: letters, digits, [-], [_] *)
Definition url_safe (c : Z) : Prop :=
  65 <= c <= 90 \/ 97 <= c <= 122 \/ 48 <= c <= 57 \/ c = 45 \/ c = 95.

(** ** The Result type (shared/utils/result.ts) *)

Module Result.

(** [type Result<T, E> = Ok<T> | Err<E>]: [{ ok: true, value }] or
    [{ ok: false, error }] *)
Inductive Result (T E : Type) : Type :=
| Ok (value : T)
| Err (error : E).
Arguments Ok {T E} value.
Arguments Err {T E} error.

(** What a call does: it returns a value or throws one.  A callback
    handed to the functions below is a function that may throw. *)
Inductive Outcome (X A : Type) : Type :=
| Returns (a : A)
| Throws (x : X).
Arguments Returns {X A} a.
Arguments Throws {X A} x.

Definition ok {T E} (value : T) : Result T E := Ok value.
Definition err {T E} (error : E) : Result T E := Err error.

(** [result.ok === true] *)
Definition isOk {T E} (result : Result T E) : bool :=
  match result with
  | Ok _ => true
  | Err _ => false
  end.

(** [result.ok === false] *)
Definition isErr {T E} (result : Result T E) : bool :=
  match result with
  | Ok _ => false
  | Err _ => true
  end.

(** [unwrap(result)]: throws [result.error] for an Err *)
Definition unwrap {T E} (result : Result T E) : Outcome E T :=
  match result with
  | Ok value => Returns value
  | Err error => Throws error
  end.

Definition unwrapOr {T E} (result : Result T E) (defaultValue : T) : T :=
  match result with
  | Ok value => value
  | Err _ => defaultValue
  end.

(** [map(result, fn)]: [ok(fn(result.value))] for an Ok, and the result
    itself for an Err *)
Definition map {T U E X} (result : Result T E) (fn : T -> Outcome X U)
  : Outcome X (Result U E) :=
  match result with
  | Ok value =>
      match fn value with
      | Returns u => Returns (ok u)
      | Throws x => Throws x
      end
  | Err error => Returns (Err error)
  end.

Definition mapErr {T E F X} (result : Result T E) (fn : E -> Outcome X F)
  : Outcome X (Result T F) :=
  match result with
  | Err error =>
      match fn error with
      | Returns f => Returns (err f)
      | Throws x => Throws x
      end
  | Ok value => Returns (Ok value)
  end.

Definition andThen {T U E X} (result : Result T E) (fn : T -> Outcome X (Result U E))
  : Outcome X (Result U E) :=
  match result with
  | Ok value => fn value
  | Err error => Returns (Err error)
  end.

(** [tap(result, fn)]: [fn] is called for its effect, here on a state
    [S], and the result is returned as it is. *)
Definition tap {T E X S} (result : Result T E) (fn : T -> S -> Outcome X S) (s : S)
  : Outcome X (Result T E * S) :=
  match result with
  | Ok value =>
      match fn value s with
      | Returns s' => Returns (result, s')
      | Throws x => Throws x
      end
  | Err _ => Returns (result, s)
  end.

(** A thrown value: an instance of [Error], or any other value *)
Inductive Thrown (ErrorT V : Type) : Type :=
| ThrownError (e : ErrorT)
| ThrownValue (v : V).
Arguments ThrownError {ErrorT V} e.
Arguments ThrownValue {ErrorT V} v.

(** [tryCatch(fn)]: [err(error instanceof Error ? error : new
    Error(String(error)))] when [fn] throws; [newError message] is [new
    Error(message)] and [toString] is [String], which runs in the catch
    block and may throw itself: then the call throws. *)
Definition tryCatch {T ErrorT V} (toString : V -> Outcome (Thrown ErrorT V) jsstring)
    (newError : jsstring -> ErrorT)
    (fn : unit -> Outcome (Thrown ErrorT V) T)
  : Outcome (Thrown ErrorT V) (Result T ErrorT) :=
  match fn tt with
  | Returns value => Returns (ok value)
  | Throws (ThrownError e) => Returns (err e)
  | Throws (ThrownValue v) =>
      match toString v with
      | Returns message => Returns (err (newError message))
      | Throws x => Throws x
      end
  end.

(** The loop of [all]: [values] holds the values pushed so far. *)
Fixpoint all_loop {T E} (results : list (Result T E)) (values : list T)
  : Result (list T) E :=
  match results with
  | [] => ok values
  | result :: rest =>
      match result with
      | Err error => Err error
      | Ok value => all_loop rest (values ++ [value])
      end
  end.

(** [all(results)] *)
Definition all {T E} (results : list (Result T E)) : Result (list T) E :=
  all_loop results [].

End Result.

(** * Properties *)

(** ** Base64url and UTF-8 *)

Ltac decide_tests :=
  repeat match goal with
         | |- context [?a <? ?b] =>
             first [ replace (a <? b) with true by (symmetry; apply Z.ltb_lt; lia)
                   | replace (a <? b) with false by (symmetry; apply Z.ltb_ge; lia) ]
         | |- context [?a <=? ?b] =>
             first [ replace (a <=? b) with true by (symmetry; apply Z.leb_le; lia)
                   | replace (a <=? b) with false by (symmetry; apply Z.leb_gt; lia) ]
         | |- context [?a =? ?b] =>
             first [ replace (a =? b) with true by (symmetry; apply Z.eqb_eq; lia)
                   | replace (a =? b) with false by (symmetry; apply Z.eqb_neq; lia) ]
         end.

Lemma alphabet_unbase64 s : 0 <= s < 64 -> Base64Url.unbase64 (Base64Url.alphabet s) = Some s.
Proof.
  intros H. unfold Base64Url.alphabet, Base64Url.unbase64.
  assert (C : s < 26 \/ 26 <= s < 52 \/ 52 <= s < 62 \/ s = 62 \/ s = 63) by lia.
  destruct C as [C|[C|[C|[C|C]]]]; decide_tests; cbn [andb orb];
    try (f_equal; lia); subst; reflexivity.
Qed.

Lemma alphabet_low_byte s : 0 <= s < 64 -> Base64Url.alphabet s mod 256 = Base64Url.alphabet s.
Proof.
  intros H. apply Z.mod_small. unfold Base64Url.alphabet.
  destruct (Z.ltb_spec s 26); [lia|]. destruct (Z.ltb_spec s 52); [lia|].
  destruct (Z.ltb_spec s 62); [lia|]. destruct (Z.eqb_spec s 62); lia.
Qed.

Lemma three_step_ind (A : Type) (P : list A -> Prop) :
  P [] -> (forall a, P [a]) -> (forall a b, P [a; b]) ->
  (forall a b c r, P r -> P (a :: b :: c :: r)) ->
  forall l, P l.
Proof.
  intros H0 H1 H2 H3.
  fix IH 1. intros [|a [|b [|c r]]].
  - exact H0.
  - apply H1.
  - apply H2.
  - apply H3, IH.
Qed.

Lemma sextets_in_range bs :
  Forall Base64Url.is_byte bs -> Forall (fun s => 0 <= s < 64) (Base64Url.sextets_of_bytes bs).
Proof.
  unfold Base64Url.is_byte.
  induction bs as [|a|a b|a b c r IH] using three_step_ind; intros H; simpl.
  - constructor.
  - inversion_clear H. repeat constructor; Z.to_euclidean_division_equations; lia.
  - inversion_clear H as [|? ? Ha H']. inversion_clear H' as [|? ? Hb _].
    repeat constructor; Z.to_euclidean_division_equations; lia.
  - inversion_clear H as [|? ? Ha H']. inversion_clear H' as [|? ? Hb H''].
    inversion_clear H'' as [|? ? Hc Hr].
    repeat (constructor; [Z.to_euclidean_division_equations; lia|]). auto.
Qed.

Lemma sextets_of_alphabet ss :
  Forall (fun s => 0 <= s < 64) ss ->
  Base64Url.sextets_of_chars (map Base64Url.alphabet ss) = ss.
Proof.
  induction 1 as [|s ss Hs _ IH]; cbn [map Base64Url.sextets_of_chars]; [reflexivity|].
  rewrite (alphabet_low_byte s Hs), (alphabet_unbase64 s Hs), IH. reflexivity.
Qed.

Lemma cons_eq (A : Type) (a b : A) (l m : list A) : a = b -> l = m -> a :: l = b :: m.
Proof. intros; subst; reflexivity. Qed.

Ltac euclid := Z.to_euclidean_division_equations; lia.

Lemma bytes_of_sextets_of_bytes bs :
  Forall Base64Url.is_byte bs ->
  Base64Url.bytes_of_sextets (Base64Url.sextets_of_bytes bs) = bs.
Proof.
  unfold Base64Url.is_byte.
  induction bs as [|a|a b|a b c r IH] using three_step_ind; intros H;
    cbn [Base64Url.sextets_of_bytes Base64Url.bytes_of_sextets].
  - reflexivity.
  - inversion_clear H. apply cons_eq; [euclid|reflexivity].
  - inversion_clear H as [|? ? Ha H']. inversion_clear H' as [|? ? Hb _].
    repeat (apply cons_eq; [euclid|]). reflexivity.
  - inversion_clear H as [|? ? Ha H']. inversion_clear H' as [|? ? Hb H''].
    inversion_clear H'' as [|? ? Hc Hr].
    repeat (apply cons_eq; [euclid|]). apply IH, Hr.
Qed.

(** Decoding the base64url text of a byte sequence gives the bytes back. *)
Lemma base64url_decode_encode bs :
  Forall Base64Url.is_byte bs -> Base64Url.decode (Base64Url.encode bs) = bs.
Proof.
  intros H. unfold Base64Url.decode, Base64Url.encode.
  rewrite sextets_of_alphabet by (apply sextets_in_range; exact H).
  apply bytes_of_sextets_of_bytes; exact H.
Qed.

Lemma WellFormed_app s t : WellFormed s -> WellFormed t -> WellFormed (s ++ t).
Proof.
  induction 1; intros Ht; simpl; auto using WellFormed.
Qed.

(** The base-64 digits of a code point, as the encoder computes them. *)
Lemma digits2 c : 0 <= c < 2048 ->
  exists q l, c / 64 = q /\ c mod 64 = l /\ c = q * 64 + l /\ 0 <= q < 32 /\ 0 <= l < 64.
Proof. intros H. eexists _, _. repeat split; euclid. Qed.

Lemma digits3 c : 0 <= c < 65536 ->
  exists q m l, c / 4096 = q /\ (c / 64) mod 64 = m /\ c mod 64 = l /\
    c = q * 4096 + m * 64 + l /\ 0 <= q < 16 /\ 0 <= m < 64 /\ 0 <= l < 64.
Proof. intros H. eexists _, _, _. repeat split; euclid. Qed.

Lemma digits4 c : 65536 <= c < 1114112 ->
  exists q n m l, c / 262144 = q /\ (c / 4096) mod 64 = n /\ (c / 64) mod 64 = m /\
    c mod 64 = l /\ c = q * 262144 + n * 4096 + m * 64 + l /\
    0 <= q < 5 /\ 0 <= n < 64 /\ 0 <= m < 64 /\ 0 <= l < 64.
Proof. intros H. eexists _, _, _, _. repeat split; euclid. Qed.

Ltac case_tests :=
  repeat (match goal with
          | |- context [?a =? ?b] => destruct (Z.eqb_spec a b)
          | |- context [?a <? ?b] => destruct (Z.ltb_spec a b)
          | |- context [?a <=? ?b] => destruct (Z.leb_spec a b)
          end; cbn [andb orb negb]; try lia).

Lemma utf8_decode_cons b0 r0 :
  Utf8.decode (b0 :: r0) =
  ltac:(let t := eval cbn [Utf8.decode] in (Utf8.decode (b0 :: r0)) in exact t).
Proof. reflexivity. Qed.

Ltac decode_head :=
  rewrite utf8_decode_cons; cbv beta iota; unfold Utf8.in_range.

Lemma utf8_encode_unit c :
  0 <= c < 65536 -> ~ 55296 <= c <= 57343 ->
  exists bs, (forall r, Utf8.encode (c :: r) = bs ++ Utf8.encode r) /\
             Forall Base64Url.is_byte bs /\
             (forall r, Utf8.decode (bs ++ r) = c :: Utf8.decode r).
Proof.
  intros Hc Hs. unfold Base64Url.is_byte.
  assert (C : c < 128 \/ 128 <= c < 2048 \/ 2048 <= c) by lia.
  destruct C as [C|[C|C]].
  - exists [c]. repeat split.
    + intros r. cbn [Utf8.encode]. decide_tests. reflexivity.
    + repeat constructor; lia.
    + intros r. cbn [app]. decode_head. decide_tests. reflexivity.
  - destruct (digits2 c) as (q & l & Eq & El & E & Hq & Hl); [lia|].
    exists [192 + q; 128 + l]. repeat split.
    + intros r. cbn [Utf8.encode]. rewrite Eq, El. decide_tests. reflexivity.
    + repeat constructor; lia.
    + intros r. cbn [app]. decode_head. decide_tests. cbn [andb].
      apply cons_eq; [lia|reflexivity].
  - destruct (digits3 c) as (q & m & l & Eq & Em & El & E & Hq & Hm & Hl); [lia|].
    exists [224 + q; 128 + m; 128 + l]. repeat split.
    + intros r. cbn [Utf8.encode]. unfold is_high_surrogate, is_low_surrogate.
      rewrite Eq, Em, El. clear Eq Em El.
      destruct (Z.leb_spec 55296 c); decide_tests; reflexivity.
    + repeat constructor; lia.
    + intros r. clear Eq Em El. cbn [app]. decode_head.
      destruct (Z.eqb_spec (224 + q) 224); destruct (Z.eqb_spec (224 + q) 237);
        try lia; decide_tests; cbn [andb]; (apply cons_eq; [lia|reflexivity]).
Qed.

Lemma utf8_encode_pair c d :
  55296 <= c <= 56319 -> 56320 <= d <= 57343 ->
  exists bs, (forall r, Utf8.encode (c :: d :: r) = bs ++ Utf8.encode r) /\
             Forall Base64Url.is_byte bs /\
             (forall r, Utf8.decode (bs ++ r) = c :: d :: Utf8.decode r).
Proof.
  intros Hc Hd. unfold Base64Url.is_byte.
  destruct (digits4 (65536 + (c - 55296) * 1024 + (d - 56320)))
    as (q & n & m & l & Eq & En & Em & El & E & Hq & Hn & Hm & Hl); [lia|].
  exists [240 + q; 128 + n; 128 + m; 128 + l]. repeat split.
  - intros r. cbn [Utf8.encode]. unfold is_high_surrogate, is_low_surrogate.
    cbv zeta. rewrite Eq, En, Em, El. clear Eq En Em El. decide_tests; reflexivity.
  - repeat constructor; lia.
  - intros r. clear Eq En Em El. cbn [app]. decode_head. cbv zeta.
    destruct (Z.eqb_spec (240 + q) 240); destruct (Z.eqb_spec (240 + q) 244);
      try lia; decide_tests; cbn [andb];
      replace ((((240 + q - 240) * 64 + (128 + n - 128)) * 64 + (128 + m - 128)) * 64
               + (128 + l - 128) - 65536)
        with ((c - 55296) * 1024 + (d - 56320)) by lia;
      clear - Hc Hd; (apply cons_eq; [euclid|]); (apply cons_eq; [euclid|reflexivity]).
Qed.

(** A string in which every surrogate is escaped or paired is encoded
    unit by unit; [Utf8.encode] of a lone surrogate is not needed below. *)
Lemma utf8_encode_bytes s : WellFormed s -> Forall Base64Url.is_byte (Utf8.encode s).
Proof.
  induction 1 as [|c r Hc Hs _ IH|c d r Hc Hd _ IH].
  - constructor.
  - destruct (utf8_encode_unit c Hc Hs) as (bs & E & B & _).
    rewrite E. apply Forall_app; auto.
  - destruct (utf8_encode_pair c d Hc Hd) as (bs & E & B & _).
    rewrite E. apply Forall_app; auto.
Qed.

(** Decoding the UTF-8 bytes of a well-formed string gives the string back. *)
Lemma utf8_decode_encode s : WellFormed s -> Utf8.decode (Utf8.encode s) = s.
Proof.
  induction 1 as [|c r Hc Hs _ IH|c d r Hc Hd _ IH].
  - reflexivity.
  - destruct (utf8_encode_unit c Hc Hs) as (bs & E & _ & D).
    rewrite E, D, IH. reflexivity.
  - destruct (utf8_encode_pair c d Hc Hd) as (bs & E & _ & D).
    rewrite E, D, IH. reflexivity.
Qed.

(** ** JSON *)

Example parse_nested :
  JSON.parse (json_text "{ 'a' : [1, -2.5e+3, true, null, 'xA\n\u00e9'], 'a': {} }")
  = Normal (JObject [(str "a", JArray [JNumber (str "1"); JNumber (str "-2.5e+3"); JBool true;
                                       JNull; JString [120; 65; 10; 233]]);
                     (str "a", JObject [])]).
Proof. vm_compute. reflexivity. Qed.

Example parse_rejects :
  map JSON.parse
      (map json_text ["" ; "01"; "1."; "[1,]"; "{'a'}"; "tru"; "[1 2]"; "nullx"; "{} {}";
                      "'abc"; "-"; "1e"; "{'a':1,}"; "'\x'"; "[" ])%string
  = repeat (Throw SyntaxError) 15.
Proof. vm_compute. reflexivity. Qed.

Lemma lex_silent mode mode' c r :
  JSON.lex_step mode c = Some ([], mode') -> JSON.lex mode (c :: r) = JSON.lex mode' r.
Proof.
  intros H. cbn [JSON.lex]. rewrite H. destruct (JSON.lex mode' r); reflexivity.
Qed.

Lemma lex_string_char acc c r :
  32 <= c -> c <> 34 -> c <> 92 ->
  JSON.lex (JSON.LString acc) (c :: r) = JSON.lex (JSON.LString (c :: acc)) r.
Proof.
  intros. apply lex_silent. cbn [JSON.lex_step]. decide_tests. reflexivity.
Qed.

Lemma lex_short_escape acc e x r :
  JSON.lex_escape acc e = Some ([], JSON.LString (x :: acc)) ->
  JSON.lex (JSON.LString acc) (92 :: e :: r) = JSON.lex (JSON.LString (x :: acc)) r.
Proof.
  intros H. rewrite (lex_silent _ (JSON.LEscape acc)) by reflexivity.
  apply lex_silent. exact H.
Qed.

Lemma hex_value_digit n : 0 <= n < 16 -> JSON.hex_value (JSON.hex_digit n) = Some n.
Proof.
  intros H. unfold JSON.hex_value, JSON.hex_digit.
  destruct (Z.ltb_spec n 10); decide_tests; cbn [andb]; f_equal; lia.
Qed.

Lemma lex_unicode_escape acc c r :
  0 <= c < 65536 ->
  JSON.lex (JSON.LString acc) (JSON.UnicodeEscape c ++ r) = JSON.lex (JSON.LString (c :: acc)) r.
Proof.
  intros Hc. unfold JSON.UnicodeEscape. cbn [app].
  rewrite (lex_silent _ (JSON.LEscape acc)) by reflexivity.
  rewrite (lex_silent _ (JSON.LUnicode acc 0 0)) by reflexivity.
  assert (H3 : 0 <= c / 4096 < 16) by euclid.
  assert (H2 : 0 <= (c / 256) mod 16 < 16) by euclid.
  assert (H1 : 0 <= (c / 16) mod 16 < 16) by euclid.
  assert (H0 : 0 <= c mod 16 < 16) by euclid.
  erewrite lex_silent by (cbn [JSON.lex_step]; rewrite (hex_value_digit _ H3); reflexivity).
  erewrite lex_silent by (cbn [JSON.lex_step]; rewrite (hex_value_digit _ H2); reflexivity).
  erewrite lex_silent by (cbn [JSON.lex_step]; rewrite (hex_value_digit _ H1); reflexivity).
  erewrite lex_silent by (cbn [JSON.lex_step]; rewrite (hex_value_digit _ H0); reflexivity).
  do 2 f_equal. apply cons_eq; [|reflexivity]. clear - Hc. euclid.
Qed.

Lemma two_step_ind (A : Type) (P : list A -> Prop) :
  P [] -> (forall a, P [a]) -> (forall a b r, P r -> P (b :: r) -> P (a :: b :: r)) ->
  forall l, P l.
Proof.
  intros H0 H1 H2 l.
  enough (H : P l /\ forall a, P (a :: l)) by apply H.
  induction l as [|b r [IHr IHbr]]; split; auto.
Qed.

Lemma rev_cons_app (A : Type) (c : A) (s acc : list A) : rev (c :: s) ++ acc = rev s ++ c :: acc.
Proof. simpl. rewrite <- app_assoc. reflexivity. Qed.

(** Reading the characters [JSON.stringify] writes for a string gives
    the string back. *)
Lemma lex_quote_chars s :
  is_jsstring s ->
  forall acc rest,
    JSON.lex (JSON.LString acc) (JSON.quote_chars s ++ rest)
    = JSON.lex (JSON.LString (rev s ++ acc)) rest.
Proof.
  unfold is_jsstring, code_unit.
  induction s as [|c|c d r IHr IHdr] using two_step_ind; intros H acc rest.
  - reflexivity.
  - inversion_clear H as [|? ? Hc _].
    cbn [JSON.quote_chars]. unfold is_high_surrogate, is_low_surrogate.
    case_tests; cbn [app rev]; subst;
      first [ rewrite app_nil_r; apply lex_unicode_escape; assumption
            | apply lex_unicode_escape; assumption
            | apply lex_short_escape; reflexivity
            | apply lex_string_char; lia ].
  - inversion_clear H as [|? ? Hc Hr].
    pose proof (IHdr Hr) as IH. inversion_clear Hr as [|? ? Hd Hr']. specialize (IHr Hr').
    rewrite rev_cons_app.
    remember (d :: r) as dr eqn:E.
    cbn [JSON.quote_chars]. unfold is_high_surrogate, is_low_surrogate.
    destruct (Z.leb_spec 55296 c); destruct (Z.leb_spec c 56319); cbn [andb].
    + subst dr. rewrite rev_cons_app.
      destruct (Z.leb_spec 56320 d); destruct (Z.leb_spec d 57343); cbn [andb app].
      * rewrite 2 lex_string_char by lia. apply IHr.
      * rewrite <- app_assoc, lex_unicode_escape, IH, rev_cons_app by assumption. reflexivity.
      * rewrite <- app_assoc, lex_unicode_escape, IH, rev_cons_app by assumption. reflexivity.
      * rewrite <- app_assoc, lex_unicode_escape, IH, rev_cons_app by assumption. reflexivity.
    + case_tests; subst; cbn [app];
        first [ rewrite <- app_assoc, lex_unicode_escape by assumption; apply IH
              | erewrite lex_short_escape by reflexivity; apply IH
              | rewrite lex_string_char by lia; apply IH ].
    + case_tests; subst; cbn [app];
        first [ rewrite <- app_assoc, lex_unicode_escape by assumption; apply IH
              | erewrite lex_short_escape by reflexivity; apply IH
              | rewrite lex_string_char by lia; apply IH ].
    + lia.
Qed.

Lemma WellFormed_below_surrogates s :
  Forall (fun c => 0 <= c < 55296) s -> WellFormed s.
Proof.
  induction 1; constructor; auto; lia.
Qed.

Lemma hex_digit_range n : 0 <= n < 16 -> 0 <= JSON.hex_digit n < 55296.
Proof.
  intros H. unfold JSON.hex_digit. destruct (Z.ltb_spec n 10); lia.
Qed.

Lemma UnicodeEscape_well_formed c r :
  0 <= c < 65536 -> WellFormed r -> WellFormed (JSON.UnicodeEscape c ++ r).
Proof.
  intros Hc Hr. apply WellFormed_app; [|exact Hr].
  apply WellFormed_below_surrogates. unfold JSON.UnicodeEscape.
  repeat (constructor; [first [lia | apply hex_digit_range; euclid]|]). constructor.
Qed.

(** What [JSON.stringify] writes for a string has no lone surrogate. *)
Lemma quote_chars_well_formed s : is_jsstring s -> WellFormed (JSON.quote_chars s).
Proof.
  unfold is_jsstring, code_unit.
  induction s as [|c|c d r IHr IHdr] using two_step_ind; intros H.
  - constructor.
  - inversion_clear H as [|? ? Hc _].
    cbn [JSON.quote_chars]. unfold is_high_surrogate, is_low_surrogate.
    case_tests.
    all: try (rewrite <- (app_nil_r (JSON.UnicodeEscape c))).
    all: try (apply UnicodeEscape_well_formed; [assumption|constructor]).
    all: repeat (apply wf_unit; [lia|lia|]); constructor.
  - inversion_clear H as [|? ? Hc Hr].
    pose proof (IHdr Hr) as IH. inversion_clear Hr as [|? ? Hd Hr']. specialize (IHr Hr').
    remember (d :: r) as dr eqn:E.
    cbn [JSON.quote_chars]. unfold is_high_surrogate, is_low_surrogate.
    destruct (Z.leb_spec 55296 c); destruct (Z.leb_spec c 56319); cbn [andb].
    + subst dr.
      destruct (Z.leb_spec 56320 d); destruct (Z.leb_spec d 57343); cbn [andb];
        try (apply UnicodeEscape_well_formed; assumption).
      apply wf_pair; [lia|lia|exact IHr].
    + case_tests.
      all: try (apply UnicodeEscape_well_formed; assumption).
      all: repeat (apply wf_unit; [lia|lia|]); exact IH.
    + case_tests.
      all: try (apply UnicodeEscape_well_formed; assumption).
      all: repeat (apply wf_unit; [lia|lia|]); exact IH.
    + lia.
Qed.

Lemma QuoteJSONString_well_formed s : is_jsstring s -> WellFormed (JSON.QuoteJSONString s).
Proof.
  intros H. unfold JSON.QuoteJSONString.
  apply wf_unit; [lia|lia|]. apply WellFormed_app.
  - apply quote_chars_well_formed, H.
  - apply wf_unit; [lia|lia|constructor].
Qed.

Lemma is_jsstring_str s : is_jsstring (str s).
Proof.
  unfold is_jsstring, str. apply Forall_map, Forall_forall. intros a _.
  unfold code_unit. pose proof (N_ascii_bounded a). lia.
Qed.

(** The text of a cursor payload. *)
Lemma stringify_payload v d :
  JSON.stringify [(str "v", v); (str "d", d)]
  = [123; 34; 118; 34; 58; 34] ++ JSON.quote_chars v
    ++ [34; 44; 34; 100; 34; 58; 34] ++ JSON.quote_chars d ++ [34; 125].
Proof.
  unfold JSON.stringify, JSON.QuoteJSONString. cbn [map fst snd JSON.join].
  change (JSON.quote_chars (str "v")) with [118].
  change (JSON.quote_chars (str "d")) with [100].
  cbn [app]. repeat (rewrite <- app_assoc; cbn [app]). reflexivity.
Qed.

Lemma stringify_payload_well_formed v d :
  is_jsstring v -> is_jsstring d -> WellFormed (JSON.stringify [(str "v", v); (str "d", d)]).
Proof.
  intros Hv Hd. rewrite stringify_payload.
  repeat first [ apply WellFormed_app
               | apply quote_chars_well_formed; assumption
               | apply WellFormed_below_surrogates; repeat constructor; lia ].
Qed.

Lemma lex_payload v d :
  is_jsstring v -> is_jsstring d ->
  JSON.lex JSON.LStart (JSON.stringify [(str "v", v); (str "d", d)])
  = Some [JSON.TLBrace; JSON.TString (str "v"); JSON.TColon; JSON.TString v; JSON.TComma;
          JSON.TString (str "d"); JSON.TColon; JSON.TString d; JSON.TRBrace].
Proof.
  intros Hv Hd. rewrite stringify_payload.
  cbn [app JSON.lex]. cbn.
  rewrite (lex_quote_chars v Hv). cbn.
  rewrite (lex_quote_chars d Hd). cbn.
  rewrite !app_nil_r, !rev_involutive. reflexivity.
Qed.

(** Parsing the text written for a cursor payload gives the payload. *)
Lemma parse_stringify_payload v d :
  is_jsstring v -> is_jsstring d ->
  JSON.parse (JSON.stringify [(str "v", v); (str "d", d)])
  = Normal (JObject [(str "v", JString v); (str "d", JString d)]).
Proof.
  intros Hv Hd. unfold JSON.parse. rewrite (lex_payload v d Hv Hd). reflexivity.
Qed.


(** ** The store *)

Section StoreFacts.
Context {T : Type}.
Implicit Types (h : store T) (a b : ref) (l x : list T).

Lemma elements_valid h a x : elements h a = Some x -> (a < List.length h)%nat.
Proof.
  unfold elements. intros H. apply nth_error_Some. congruence.
Qed.

Lemma elements_update_same h a l x :
  elements h a = Some x -> elements (store_update h a l) a = Some l.
Proof.
  unfold elements. revert a. induction h as [|y h IH]; intros [|a] H; simpl in *;
    try discriminate; auto.
Qed.

Lemma elements_update_other h a b l :
  a <> b -> elements (store_update h a l) b = elements h b.
Proof.
  unfold elements. revert a b. induction h as [|y h IH]; intros [|a] [|b] H; simpl;
    try reflexivity; try congruence. apply IH. congruence.
Qed.

Lemma elements_alloc_old h a l x : elements h a = Some x -> elements (h ++ [l]) a = Some x.
Proof.
  intros H. unfold elements in *. rewrite nth_error_app1; [exact H|].
  apply nth_error_Some. congruence.
Qed.

Lemma elements_alloc_new h l : elements (h ++ [l]) (List.length h) = Some l.
Proof.
  unfold elements. rewrite nth_error_app2, Nat.sub_diag by reflexivity. reflexivity.
Qed.

Lemma array_get_first h a l : elements h a = Some l -> array_get a 0 h = Normal (hd_error l, h).
Proof.
  intros H. unfold array_get, with_array. rewrite H. destruct l; reflexivity.
Qed.

Lemma array_get_last h a l :
  elements h a = Some l ->
  array_get a (Z.of_nat (List.length l) - 1) h = Normal (last_error l, h).
Proof.
  intros H. unfold array_get, with_array, last_error. rewrite H.
  destruct (Z.ltb_spec (Z.of_nat (List.length l) - 1) 0) as [Hlt|Hge].
  - destruct l; [reflexivity|cbn [List.length] in Hlt; lia].
  - do 3 f_equal. lia.
Qed.

Lemma array_length_elements h a l :
  elements h a = Some l -> array_length a h = Normal (Z.of_nat (List.length l), h).
Proof.
  intros H. unfold array_length, with_array. rewrite H. reflexivity.
Qed.

End StoreFacts.

(** ** The codec *)

Section CodecFacts.
Context {TCursor TDecoded TEntity : Type}.
Variable this : CursorPaginator TCursor TDecoded TEntity.

(** [decode] returns for every string: whatever the body throws is caught. *)
Lemma decode_returns token : exists r, decode this token = Normal r.
Proof.
  unfold decode, try_catch.
  match goal with |- context [match ?b with _ => _ end] => destruct b end; eauto.
Qed.

Lemma effectiveDirection_returns options :
  exists dir, effectiveDirection this options = Normal dir.
Proof.
  unfold effectiveDirection.
  destruct (cursor options) as [[|c s]|]; cbn [bind]; eauto.
  destruct (decode_returns (c :: s)) as [r ->]. cbn [bind]. eauto.
Qed.

(** The token [encode] writes is the base64url text of the UTF-8 bytes of
    the payload, and [decode] reads the payload back from it. *)
Lemma payload_of_encode (v d : jsstring) :
  is_jsstring v -> is_jsstring d ->
  Utf8.decode (Base64Url.decode
    (Base64Url.encode (Utf8.encode (JSON.stringify [(str "v", v); (str "d", d)]))))
  = JSON.stringify [(str "v", v); (str "d", d)].
Proof.
  intros Hv Hd. pose proof (stringify_payload_well_formed v d Hv Hd) as W.
  rewrite base64url_decode_encode by (apply utf8_encode_bytes, W).
  apply utf8_decode_encode, W.
Qed.

End CodecFacts.

(** ** The page builder *)

Section BuilderFacts.
Context {TCursor TDecoded TEntity : Type}.
Variable this : CursorPaginator TCursor TDecoded TEntity.
Implicit Types (h : store TEntity) (es : list TEntity).

(** The second half of [buildResult], from [firstItem] on, run on an
    array [dataRef] that holds [pg]. *)
Lemma buildResult_finish h1 dataRef pg (more defined fwd : bool) :
  elements h1 dataRef = Some pg ->
  exists r,
    (firstItem <~ array_get dataRef 0 ;;
     dataLength <~ array_length dataRef ;;
     lastItem <~ array_get dataRef (dataLength - 1) ;;
     let '(nextCursor, prevCursor, hasNextPage, hasPrevPage) :=
       if 0 <? dataLength then
         if fwd then
           (cursorOf this more lastItem forward, cursorOf this defined firstItem backward,
            more, defined)
         else
           (cursorOf this defined lastItem forward, cursorOf this more firstItem backward,
            defined, more)
       else (None, None, false, false) in
     ret {| data := dataRef;
            pagination := {| nextCursor := nextCursor; prevCursor := prevCursor;
                             hasNextPage := hasNextPage; hasPrevPage := hasPrevPage;
                             count := dataLength |} |}) h1 = Normal (r, h1) /\
    data r = dataRef /\
    count (pagination r) = Z.of_nat (List.length pg) /\
    hasNextPage (pagination r)
    = match pg with
      | [] => false
      | _ => if fwd then more else defined
      end /\
    hasPrevPage (pagination r)
    = match pg with
      | [] => false
      | _ => if fwd then defined else more
      end /\
    nextCursor (pagination r)
    = cursorOf this (hasNextPage (pagination r)) (last_error pg) forward /\
    prevCursor (pagination r)
    = cursorOf this (hasPrevPage (pagination r)) (hd_error pg) backward.
Proof.
  intros Hdata. unfold mbind.
  rewrite (array_get_first _ _ _ Hdata), (array_length_elements _ _ _ Hdata),
    (array_get_last _ _ _ Hdata).
  destruct pg as [|e0 pg'].
  - eexists. cbn. repeat split; eauto.
  - replace (0 <? Z.of_nat (List.length (e0 :: pg'))) with true
      by (symmetry; apply Z.ltb_lt; cbn [List.length]; lia).
    destruct fwd; eexists; cbn -[last_error Z.of_nat]; repeat split; eauto.
Qed.

(** What a call of [buildResult] does, on an array [entities] that holds
    [es], when the direction resolves to [dir]: it returns; the array
    [data] holds the page; the array [entities] is reversed when the
    page is presented backward and nothing was trimmed; the flags and
    cursors are those of the branch taken. *)
Lemma buildResult_spec h entities es options dir :
  elements h entities = Some es ->
  effectiveDirection this options = Normal dir ->
  let page := presented dir (trimmed es (limit options)) in
  let more := overfetched es (limit options) in
  exists r h',
    buildResult this entities options h = Normal (r, h') /\
    elements h' (data r) = Some page /\
    elements h' entities = Some (if is_backward dir && negb more then rev es else es) /\
    count (pagination r) = Z.of_nat (List.length page) /\
    hasNextPage (pagination r)
    = match page with
      | [] => false
      | _ => if is_forward dir then more else cursorDefined options
      end /\
    hasPrevPage (pagination r)
    = match page with
      | [] => false
      | _ => if is_forward dir then cursorDefined options else more
      end /\
    nextCursor (pagination r)
    = cursorOf this (hasNextPage (pagination r)) (last_error page) forward /\
    prevCursor (pagination r)
    = cursorOf this (hasPrevPage (pagination r)) (hd_error page) backward.
Proof.
  intros Hes Hdir. cbv zeta.
  pose proof (elements_valid _ _ _ Hes) as Hvalid.
  unfold buildResult, mbind at 1 2 3 4, lift. rewrite Hdir.
  rewrite (array_length_elements _ _ _ Hes).
  fold (overfetched es (limit options)).
  fold (is_backward dir). fold (is_forward dir). fold (cursorDefined options).
  unfold presented, trimmed.
  destruct (overfetched es (limit options)) eqn:Emore.
  - (* the batch is trimmed: [items] is a new array *)
    unfold array_slice at 1. unfold with_array at 1. rewrite Hes.
    rewrite andb_false_r.
    set (items := slice es 0 (limit options)).
    destruct (is_backward dir) eqn:Eback.
    + unfold array_reverse, with_array at 1. rewrite elements_alloc_new.
      match goal with
      | |- context [mbind _ _ ?h1] =>
          destruct (buildResult_finish h1 (List.length h) (rev items) true
                      (cursorDefined options) (is_forward dir)) as (r & Hr & Hd & F)
      end.
      { apply (elements_update_same _ _ _ items), elements_alloc_new. }
      eexists r, _. split; [exact Hr|]. rewrite Hd. split; [|split; [|exact F]].
      * apply (elements_update_same _ _ _ items), elements_alloc_new.
      * rewrite elements_update_other by lia. apply (elements_alloc_old _ _ _ _ Hes).
    + unfold ret at 1.
      match goal with
      | |- context [mbind _ _ ?h1] =>
          destruct (buildResult_finish h1 (List.length h) items true
                      (cursorDefined options) (is_forward dir)) as (r & Hr & Hd & F)
      end.
      { apply elements_alloc_new. }
      eexists r, _. split; [exact Hr|]. rewrite Hd. split; [|split; [|exact F]].
      * apply elements_alloc_new.
      * apply (elements_alloc_old _ _ _ _ Hes).
  - (* nothing is trimmed: [items] is [entities] itself *)
    unfold ret at 1. rewrite andb_true_r.
    destruct (is_backward dir) eqn:Eback.
    + unfold array_reverse, with_array at 1. rewrite Hes.
      match goal with
      | |- context [mbind _ _ ?h1] =>
          destruct (buildResult_finish h1 entities (rev es) false
                      (cursorDefined options) (is_forward dir)) as (r & Hr & Hd & F)
      end.
      { apply (elements_update_same _ _ _ es), Hes. }
      eexists r, _. split; [exact Hr|]. rewrite Hd. split; [|split; [|exact F]].
      * apply (elements_update_same _ _ _ es), Hes.
      * apply (elements_update_same _ _ _ es), Hes.
    + unfold ret at 1.
      destruct (buildResult_finish h entities es false
                  (cursorDefined options) (is_forward dir) Hes) as (r & Hr & Hd & F).
      eexists r, _. split; [exact Hr|]. rewrite Hd. split; [|split; [|exact F]]; exact Hes.
Qed.

End BuilderFacts.

(** ** Lists *)

Section ListFacts.
Context {A : Type}.
Implicit Types (l : list A).

Lemma slice_prefix l n : 0 <= n -> slice l 0 n = firstn (Z.to_nat n) l.
Proof.
  intros Hn. unfold slice.
  replace (0 <? 0) with false by reflexivity.
  replace (n <? 0) with false by (symmetry; apply Z.ltb_ge; lia).
  replace (Z.min 0 (Z.of_nat (List.length l))) with 0 by lia.
  cbn [Z.to_nat skipn].
  destruct (Z.le_gt_cases n (Z.of_nat (List.length l))).
  - do 2 f_equal. lia.
  - rewrite !firstn_all2 by lia. reflexivity.
Qed.

Lemma trimmed_prefix l n : 0 <= n -> trimmed l n = firstn (Z.to_nat n) l.
Proof.
  intros Hn. unfold trimmed, overfetched.
  destruct (Z.ltb_spec n (Z.of_nat (List.length l))).
  - apply slice_prefix, Hn.
  - rewrite firstn_all2 by lia. reflexivity.
Qed.

Lemma length_trimmed l n :
  1 <= n ->
  Z.of_nat (List.length (trimmed l n))
  = if overfetched l n then n else Z.of_nat (List.length l).
Proof.
  intros Hn. rewrite trimmed_prefix by lia. unfold overfetched.
  rewrite length_firstn. destruct (Z.ltb_spec n (Z.of_nat (List.length l))); lia.
Qed.

Lemma length_presented dir l : List.length (presented dir l) = List.length l.
Proof.
  unfold presented. destruct (is_backward dir); [apply length_rev|reflexivity].
Qed.

Lemma last_error_nonempty l : l <> [] -> exists e, last_error l = Some e.
Proof.
  intros H. unfold last_error.
  destruct (nth_error l (List.length l - 1)) as [e|] eqn:E; [eauto|].
  apply nth_error_None in E. destruct l; [congruence|simpl in E; lia].
Qed.

Lemma hd_error_nonempty l : l <> [] -> exists e, hd_error l = Some e.
Proof.
  destruct l; [congruence|simpl; eauto].
Qed.

Variable R : A -> A -> Prop.

Lemma StronglySorted_firstn n l :
  Sorted.StronglySorted R l -> Sorted.StronglySorted R (firstn n l).
Proof.
  intros H. revert n. induction H as [|a l _ IH Ha]; intros [|n]; simpl; try constructor.
  - apply IH.
  - rewrite <- (firstn_skipn n l) in Ha. apply Forall_app in Ha. apply Ha.
Qed.

Lemma StronglySorted_snoc l a :
  Sorted.StronglySorted R l -> Forall (fun x => R x a) l ->
  Sorted.StronglySorted R (l ++ [a]).
Proof.
  induction 1 as [|b l _ IH Hb]; intros Ha; simpl.
  - repeat constructor.
  - inversion_clear Ha as [|? ? Hba Hl]. constructor; [apply IH, Hl|].
    apply Forall_app. split; [exact Hb|]. constructor; [exact Hba|constructor].
Qed.

End ListFacts.

Lemma StronglySorted_rev (A : Type) (R : A -> A -> Prop) (l : list A) :
  Sorted.StronglySorted (fun a b => R b a) l -> Sorted.StronglySorted R (rev l).
Proof.
  induction 1 as [|a l _ IH Ha]; simpl; [constructor|].
  apply StronglySorted_snoc; [exact IH|]. apply Forall_rev, Ha.
Qed.

(** ** Claims on the codec *)

(** C1. Round trip of the cursor codec.  For every string [v] and both
    directions [d], decoding the token [encode(v, d)] succeeds and gives
    a cursor whose value is [v] and whose direction is [d]: for the
    paginator with the identity strategy, and for the [Cursor] value
    object. *)
Theorem decode_encode_round_trip (TEntity : Type) (key : TEntity -> jsstring)
    (v : jsstring) (d : CursorDirection) :
  is_jsstring v ->
  decode (createIdPaginator key) (encode (createIdPaginator key) v d)
  = Normal (Some {| value := JString v; direction := JString (direction_literal d) |})
  /\ Cursor.decode (Cursor.encode {| Cursor.value := v; Cursor.direction := d |})
     = Normal (Some {| Cursor.value := v; Cursor.direction := d |}).
Proof.
  intros Hv.
  assert (Hd : is_jsstring (direction_literal d)) by (destruct d; apply is_jsstring_str).
  split.
  - unfold decode, encode. cbn [serializeCursor createIdPaginator deserializeCursor].
    rewrite payload_of_encode, parse_stringify_payload by assumption.
    reflexivity.
  - unfold Cursor.decode, Cursor.encode. cbn [Cursor.value Cursor.direction].
    rewrite payload_of_encode, parse_stringify_payload by assumption.
    destruct d; reflexivity.
Qed.

Lemma decode_encode_round_trip_witness :
  is_jsstring [105; 100; 47; 55357; 34; 10; 233]
  /\ decode (createIdPaginator id)
       (encode (createIdPaginator id) [105; 100; 47; 55357; 34; 10; 233] backward)
     = Normal (Some {| value := JString [105; 100; 47; 55357; 34; 10; 233];
                       direction := JString (str "backward") |}).
Proof.
  assert (H : is_jsstring [105; 100; 47; 55357; 34; 10; 233])
    by (repeat constructor; unfold code_unit; lia).
  split; [exact H|].
  exact (proj1 (decode_encode_round_trip TestEntity id _ backward H)).
Defined.

(** The round trip for every strategy whose serializer writes strings
    and whose deserializer reads back what the serializer wrote. *)
Lemma decode_encode_strategy {TCursor TDecoded TEntity : Type}
    (this : CursorPaginator TCursor TDecoded TEntity) (v : TCursor) (d : CursorDirection)
    (v' : TDecoded) :
  is_jsstring (serializeCursor this v) ->
  deserializeCursor this (JString (serializeCursor this v)) = Normal v' ->
  decode this (encode this v d)
  = Normal (Some {| value := v'; direction := JString (direction_literal d) |}).
Proof.
  intros Hv Hde.
  assert (Hd : is_jsstring (direction_literal d)) by (destruct d; apply is_jsstring_str).
  unfold decode, encode.
  rewrite payload_of_encode, parse_stringify_payload by assumption.
  cbn [bind property own_property]. 
  change (jsstring_eqb (str "d") (str "v")) with false.
  change (jsstring_eqb (str "v") (str "v")) with true.
  cbn [bind]. rewrite Hde. reflexivity.
Qed.

(** [equals] holds between a cursor and the cursor read back from its token. *)
Lemma Cursor_equals_refl (c : Cursor.Cursor) : Cursor.equals c c = true.
Proof.
  unfold Cursor.equals.
  assert (E : forall s, jsstring_eqb s s = true).
  { induction s as [|x s IH]; simpl; [reflexivity|]. rewrite Z.eqb_refl, IH. reflexivity. }
  rewrite !E. reflexivity.
Qed.

(** C8. [decode] is total: for every string it returns, a cursor or
    [null], and it never throws; both for the paginator, whatever its
    strategy, and for the [Cursor] value object. *)
Theorem decode_never_throws (TCursor TDecoded TEntity : Type)
    (this : CursorPaginator TCursor TDecoded TEntity) (token : jsstring) :
  (exists r, decode this token = Normal r) /\ (exists r, Cursor.decode token = Normal r).
Proof.
  split; [apply decode_returns|].
  unfold Cursor.decode, try_catch.
  match goal with |- context [match ?b with _ => _ end] => destruct b end; eauto.
Qed.

(** A token whose payload is not JSON text is invalid. *)
Lemma decode_not_json (TCursor TDecoded TEntity : Type)
    (this : CursorPaginator TCursor TDecoded TEntity) (token : jsstring) (e : JsError) :
  JSON.parse (Utf8.decode (Base64Url.decode token)) = Throw e ->
  decode this token = Normal None /\ Cursor.decode token = Normal None.
Proof.
  intros H. unfold decode, Cursor.decode. rewrite H. split; reflexivity.
Qed.

(** The invalid tokens of the unit tests and of the specification:
    the empty string, text that is not base64, and base64 of text that
    is not JSON. *)
Example decode_invalid_tokens :
  map (decode (createIdPaginator id))
      [str ""; str "invalid-base64"; str "not-valid-base64!!"; str "bm90IGpzb24"; str "bnVsbA"]
  = repeat (Normal None) 5
  /\ map Cursor.decode
       [str ""; str "invalid-base64"; str "not-valid-base64!!"; str "bm90IGpzb24"; str "bnVsbA"]
     = repeat (Normal None) 5.
Proof. split; vm_compute; reflexivity. Qed.

Lemma jsstring_eqb_eq (s t : jsstring) : jsstring_eqb s t = true -> s = t.
Proof.
  revert t. induction s as [|x s IH]; intros [|y t]; simpl; try discriminate; [reflexivity|].
  intros H. apply andb_prop in H as [Hx Ht]. apply Z.eqb_eq in Hx. subst. f_equal. auto.
Qed.

(** [Cursor.decode] checks the fields: it gives a cursor only for a
    payload that is an object with a string under [v] and one of the two
    direction literals under [d]. *)
Lemma Cursor_decode_validates (token : jsstring) (c : Cursor.Cursor) :
  Cursor.decode token = Normal (Some c) ->
  exists members,
    JSON.parse (Utf8.decode (Base64Url.decode token)) = Normal (JObject members) /\
    own_property members (str "v") = Some (JString (Cursor.value c)) /\
    own_property members (str "d") = Some (JString (direction_literal (Cursor.direction c))).
Proof.
  unfold Cursor.decode. cbv zeta.
  destruct (JSON.parse _) as [j|e]; cbn [bind try_catch]; [|discriminate].
  destruct j as [| | | | |?|members]; cbn [Cursor.cursorPayloadSchema_parse bind try_catch];
    try discriminate.
  unfold Cursor.shape_field.
  destruct (own_property members (str "v")) as [[| | | |s| |]|] eqn:Ev;
    cbn [Cursor.z_string bind try_catch]; try discriminate.
  destruct (own_property members (str "d")) as [[| | | |t| |]|] eqn:Ed;
    cbn [Cursor.z_enum_direction bind try_catch]; try discriminate.
  destruct (jsstring_eqb t (str "forward")) eqn:Ef;
    [|destruct (jsstring_eqb t (str "backward")) eqn:Eb];
    cbn [bind try_catch]; try discriminate;
    intros H; injection H as <-; exists members;
    cbn [Cursor.value Cursor.direction Cursor.v Cursor.d direction_literal];
    (split; [reflexivity|]); (split; [exact Ev|]); rewrite Ed; do 2 f_equal;
    apply jsstring_eqb_eq; assumption.
Qed.

(** For a payload that is a JSON object, whatever its members,
    [CursorPaginator.decode] with the identity strategy returns a
    cursor: the fields are those of the object, [undefined] when missing. *)
Lemma decode_of_object (TEntity : Type) (key : TEntity -> jsstring) (token : jsstring)
    (members : list (jsstring * JsValue)) :
  JSON.parse (Utf8.decode (Base64Url.decode token)) = Normal (JObject members) ->
  decode (createIdPaginator key) token
  = Normal (Some {| value := Cursor.shape_field members (str "v");
                    direction := Cursor.shape_field members (str "d") |}).
Proof.
  intros H. unfold decode, Cursor.shape_field. rewrite H. cbn [bind property].
  destruct (own_property members (str "v")), (own_property members (str "d")); reflexivity.
Qed.

(** With a token [Cursor.decode] accepts, the direction [buildResult]
    uses is the one of the token. *)
Lemma effectiveDirection_of_valid (TEntity : Type) (key : TEntity -> jsstring)
    (options : CursorPaginationOptions) (token : jsstring) (c : Cursor.Cursor) :
  cursor options = Some token ->
  Cursor.decode token = Normal (Some c) ->
  effectiveDirection (createIdPaginator key) options
  = Normal (JString (direction_literal (Cursor.direction c))).
Proof.
  intros Hc Hv.
  destruct (Cursor_decode_validates token c Hv) as (members & Hp & Hmv & Hmd).
  pose proof (decode_of_object TEntity key token members Hp) as D.
  unfold Cursor.shape_field in D. rewrite Hmv, Hmd in D.
  unfold effectiveDirection. rewrite Hc.
  destruct token as [|x token]; [vm_compute in Hv; discriminate|].
  rewrite D. cbn [bind direction]. destruct (Cursor.direction c); reflexivity.
Qed.

(** C2. [CursorPaginator.decode] does not check the fields.  The tokens
    below are the base64url text of the JSON payloads [{}], [{"v":"x"}],
    [{"d":"backward"}] and [{"v":"x","d":"sideways"}]; for each, [decode]
    returns a cursor and not [null], with [undefined] for a field that is
    missing and with the direction [sideways] as it stands. *)
Theorem decode_accepts_unchecked_fields :
  map (fun token => Utf8.decode (Base64Url.decode (str token)))
      ["e30"; "eyJ2IjoieCJ9"; "eyJkIjoiYmFja3dhcmQifQ"; "eyJ2IjoieCIsImQiOiJzaWRld2F5cyJ9"]%string
  = map json_text
      ["{}"; "{'v':'x'}"; "{'d':'backward'}"; "{'v':'x','d':'sideways'}"]%string
  /\ decode (createIdPaginator id) (str "e30")
     = Normal (Some {| value := JUndefined; direction := JUndefined |})
  /\ decode (createIdPaginator id) (str "eyJ2IjoieCJ9")
     = Normal (Some {| value := JString (str "x"); direction := JUndefined |})
  /\ decode (createIdPaginator id) (str "eyJkIjoiYmFja3dhcmQifQ")
     = Normal (Some {| value := JUndefined; direction := JString (str "backward") |})
  /\ decode (createIdPaginator id) (str "eyJ2IjoieCIsImQiOiJzaWRld2F5cyJ9")
     = Normal (Some {| value := JString (str "x"); direction := JString (str "sideways") |}).
Proof. repeat split; vm_compute; reflexivity. Qed.

(** C7. The direction [buildResult] uses is read from the token without
    a check.  With no default direction configured, the token of
    [{"v":"x","d":"sideways"}] makes the direction [sideways], and the
    token of [{"d":"backward"}], in which [v] is missing, makes it
    [backward]; neither token is valid, and neither makes it [forward]. *)
Theorem effectiveDirection_of_unchecked_token :
  effectiveDirection (createIdPaginator id)
    {| limit := 20; cursor := Some (str "eyJ2IjoieCIsImQiOiJzaWRld2F5cyJ9");
       defaultDirection := None |}
  = Normal (JString (str "sideways"))
  /\ effectiveDirection (createIdPaginator id)
       {| limit := 20; cursor := Some (str "eyJkIjoiYmFja3dhcmQifQ");
          defaultDirection := None |}
     = Normal (JString (str "backward"))
  /\ Cursor.decode (str "eyJ2IjoieCIsImQiOiJzaWRld2F5cyJ9") = Normal None
  /\ Cursor.decode (str "eyJkIjoiYmFja3dhcmQifQ") = Normal None.
Proof. repeat split; vm_compute; reflexivity. Qed.

Section DirectionFacts.
Context {TCursor TDecoded TEntity : Type}.
Variable this : CursorPaginator TCursor TDecoded TEntity.

(** Without a cursor, with the empty string, and with a token [decode]
    rejects, the direction is the default one, and [forward] when none
    is configured. *)
Lemma effectiveDirection_default options :
  match cursor options with
  | Some (c :: s) => decode this (c :: s) = Normal None
  | _ => True
  end ->
  effectiveDirection this options = Normal (configuredDirection options).
Proof.
  unfold effectiveDirection, configuredDirection.
  destruct (cursor options) as [[|c s]|]; intros H; cbn [bind]; try rewrite H; cbn [bind];
    destruct (defaultDirection options) as [[|]|]; reflexivity.
Qed.

(** With a token [encode] wrote, the direction is the one of the token. *)
Lemma effectiveDirection_of_encoded options (v : TCursor) (d : CursorDirection) (v' : TDecoded) :
  is_jsstring (serializeCursor this v) ->
  deserializeCursor this (JString (serializeCursor this v)) = Normal v' ->
  cursor options = Some (encode this v d) ->
  effectiveDirection this options = Normal (JString (direction_literal d)).
Proof.
  intros Hv Hde Hc. unfold effectiveDirection. rewrite Hc.
  pose proof (decode_encode_strategy this v d v' Hv Hde) as D.
  destruct (encode this v d) as [|c s] eqn:E.
  - exfalso. revert D. vm_compute. discriminate.
  - rewrite D. cbn [bind direction]. destruct d; reflexivity.
Qed.

End DirectionFacts.

(** ** Claims on the page builder *)

Section BuilderClaims.
Context {TCursor TDecoded TEntity : Type}.
Variable this : CursorPaginator TCursor TDecoded TEntity.
Implicit Types (h : store TEntity) (es : list TEntity).

Lemma buildResult_returns_page h entities es options :
  elements h entities = Some es ->
  exists dir r h',
    returns_page this h entities options dir r h'
      (presented dir (trimmed es (limit options))) /\
    elements h' entities
    = Some (if is_backward dir && negb (overfetched es (limit options)) then rev es else es) /\
    count (pagination r)
    = Z.of_nat (List.length (presented dir (trimmed es (limit options)))) /\
    hasNextPage (pagination r)
    = match presented dir (trimmed es (limit options)) with
      | [] => false
      | _ => if is_forward dir then overfetched es (limit options) else cursorDefined options
      end /\
    hasPrevPage (pagination r)
    = match presented dir (trimmed es (limit options)) with
      | [] => false
      | _ => if is_forward dir then cursorDefined options else overfetched es (limit options)
      end /\
    nextCursor (pagination r)
    = cursorOf this (hasNextPage (pagination r))
        (last_error (presented dir (trimmed es (limit options)))) forward /\
    prevCursor (pagination r)
    = cursorOf this (hasPrevPage (pagination r))
        (hd_error (presented dir (trimmed es (limit options)))) backward.
Proof.
  intros Hes. destruct (effectiveDirection_returns this options) as [dir Hdir].
  destruct (buildResult_spec this h entities es options dir Hes Hdir)
    as (r & h' & Hrun & Hdata & F).
  exists dir, r, h'. split; [|exact F]. repeat split; assumption.
Qed.

Lemma presented_nonempty dir es : es <> [] -> presented dir es <> [].
Proof.
  intros H E. apply H. apply length_zero_iff_nil.
  rewrite <- (length_presented dir es), E. reflexivity.
Qed.

(** C3. Flags and cursors by direction.  When the trimmed batch is not
    empty: forward, [hasNextPage] is [hasMore] and [hasPrevPage] tells
    whether a cursor was given; backward, [hasNextPage] tells whether a
    cursor was given and [hasPrevPage] is [hasMore]; and in both cases
    [nextCursor], when [hasNextPage] holds, is the token of the key of
    the last item of the page with the direction forward, and
    [prevCursor], when [hasPrevPage] holds, the token of the key of its
    first item with the direction backward. *)
Theorem flags_and_cursors_by_direction h entities es options :
  elements h entities = Some es ->
  trimmed es (limit options) <> [] ->
  exists dir r h' page,
    returns_page this h entities options dir r h' page /\
    page = presented dir (trimmed es (limit options)) /\
    (dir = JString (str "forward") ->
       hasNextPage (pagination r) = overfetched es (limit options) /\
       hasPrevPage (pagination r) = cursorDefined options) /\
    (dir = JString (str "backward") ->
       hasNextPage (pagination r) = cursorDefined options /\
       hasPrevPage (pagination r) = overfetched es (limit options)) /\
    (hasNextPage (pagination r) = true ->
       exists lastItem, last_error page = Some lastItem /\
         nextCursor (pagination r) = Some (encode this (cursorKey this lastItem) forward)) /\
    (hasPrevPage (pagination r) = true ->
       exists firstItem, hd_error page = Some firstItem /\
         prevCursor (pagination r) = Some (encode this (cursorKey this firstItem) backward)).
Proof.
  intros Hes Hne.
  destruct (buildResult_returns_page h entities es options Hes)
    as (dir & r & h' & Hrun & _ & _ & Hnext & Hprev & Hnc & Hpc).
  exists dir, r, h', (presented dir (trimmed es (limit options))).
  pose proof (presented_nonempty dir _ Hne) as Hp.
  destruct (presented dir (trimmed es (limit options))) as [|e0 page'] eqn:Epage;
    [congruence|].
  split; [exact Hrun|]. split; [reflexivity|].
  split; [|split; [|split]].
  - intros ->. rewrite Hnext, Hprev. split; reflexivity.
  - intros ->. rewrite Hnext, Hprev. split; reflexivity.
  - intros Ht. destruct (last_error_nonempty (e0 :: page') Hp) as [e He].
    exists e. split; [exact He|]. rewrite Hnc, Ht, He. reflexivity.
  - intros Ht. exists e0. split; [reflexivity|]. rewrite Hpc, Ht. reflexivity.
Qed.

(** C4.  Windowing, for the limits of a request, which are at least
    1.  When [entities] holds more than [limit] elements, the page holds exactly
    [limit] of them, the first [limit] in the order presented, and the
    flag of the direction (forward [hasNextPage], backward
    [hasPrevPage]) is true; otherwise the page holds as many elements as
    [entities] and that flag is false. *)
Theorem windowing h entities es options :
  elements h entities = Some es ->
  1 <= limit options ->
  exists dir r h' page,
    returns_page this h entities options dir r h' page /\
    (limit options < Z.of_nat (List.length es) ->
       Z.of_nat (List.length page) = limit options /\
       page = presented dir (firstn (Z.to_nat (limit options)) es) /\
       (dir = JString (str "forward") -> hasNextPage (pagination r) = true) /\
       (dir = JString (str "backward") -> hasPrevPage (pagination r) = true)) /\
    (Z.of_nat (List.length es) <= limit options ->
       List.length page = List.length es /\
       (dir = JString (str "forward") -> hasNextPage (pagination r) = false) /\
       (dir = JString (str "backward") -> hasPrevPage (pagination r) = false)).
Proof.
  intros Hes Hlimit.
  destruct (buildResult_returns_page h entities es options Hes)
    as (dir & r & h' & Hrun & _ & _ & Hnext & Hprev & _).
  exists dir, r, h', (presented dir (trimmed es (limit options))).
  split; [exact Hrun|].
  pose proof (length_trimmed es (limit options) Hlimit) as Hlen.
  pose proof (length_presented dir (trimmed es (limit options))) as Hpl.
  rewrite Hnext, Hprev. unfold overfetched in *.
  split; intros Hcmp.
  - replace (limit options <? Z.of_nat (List.length es)) with true in *
      by (symmetry; apply Z.ltb_lt; lia).
    split; [lia|]. split; [rewrite trimmed_prefix by lia; reflexivity|].
    destruct (presented dir (trimmed es (limit options))) as [|e0 page'];
      [cbn [List.length] in Hpl; lia|].
    split; intros ->; reflexivity.
  - replace (limit options <? Z.of_nat (List.length es)) with false in *
      by (symmetry; apply Z.ltb_ge; lia).
    split; [lia|].
    destruct (presented dir (trimmed es (limit options))) as [|e0 page'];
      split; intros ->; reflexivity.
Qed.

(** C5. Reversal.  Backward, the page is the reverse of the trimmed
    batch, so a batch fetched in descending order is presented in
    ascending order; forward, the page is the trimmed batch as it
    stands.  The trimmed batch is the first [limit] elements of
    [entities], for a limit that is not negative. *)
Theorem backward_reversal h entities es options :
  elements h entities = Some es ->
  exists dir r h' page,
    returns_page this h entities options dir r h' page /\
    (dir = JString (str "backward") ->
       page = rev (trimmed es (limit options)) /\
       forall before : TEntity -> TEntity -> Prop,
         StronglySorted (fun a b => before b a) (trimmed es (limit options)) ->
         StronglySorted before page) /\
    (dir = JString (str "forward") -> page = trimmed es (limit options)) /\
    (0 <= limit options ->
       trimmed es (limit options) = firstn (Z.to_nat (limit options)) es) /\
    (forall before : TEntity -> TEntity -> Prop,
       0 <= limit options ->
       StronglySorted before es -> StronglySorted before (trimmed es (limit options))).
Proof.
  intros Hes.
  destruct (buildResult_returns_page h entities es options Hes)
    as (dir & r & h' & Hrun & _).
  exists dir, r, h', (presented dir (trimmed es (limit options))).
  split; [exact Hrun|].
  split; [|split; [|split]].
  - intros ->. split; [reflexivity|].
    intros before Hsorted. apply StronglySorted_rev, Hsorted.
  - intros ->. reflexivity.
  - apply trimmed_prefix.
  - intros before Hlimit Hsorted. rewrite trimmed_prefix by exact Hlimit.
    apply StronglySorted_firstn, Hsorted.
Qed.

(** C9. The empty input.  Whatever the options, [buildResult] on an
    empty array returns an empty page, the count 0, no cursor and both
    flags false. *)
Theorem empty_input_result h entities options :
  elements h entities = Some [] ->
  exists r h',
    buildResult this entities options h = Normal (r, h') /\
    elements h' (data r) = Some [] /\
    pagination r = {| nextCursor := None; prevCursor := None;
                      hasNextPage := false; hasPrevPage := false; count := 0 |}.
Proof.
  intros Hes.
  destruct (buildResult_returns_page h entities [] options Hes)
    as (dir & r & h' & (_ & Hrun & Hdata) & _ & Hcount & Hnext & Hprev & Hnc & Hpc).
  assert (E : presented dir (trimmed (@nil TEntity) (limit options)) = []).
  { apply length_zero_iff_nil. rewrite length_presented.
    unfold trimmed, slice. destruct (overfetched _ _); [|reflexivity].
    rewrite skipn_nil, firstn_nil. reflexivity. }
  rewrite E in *. exists r, h'. split; [exact Hrun|]. split; [exact Hdata|].
  rewrite Hnext in Hnc. rewrite Hprev in Hpc.
  destruct (pagination r). cbn in *. subst. reflexivity.
Qed.

(** C10. Every result is consistent: [count] is the length of [data],
    [nextCursor] is not null exactly when [hasNextPage] holds, and
    [prevCursor] is not null exactly when [hasPrevPage] holds. *)
Theorem result_internally_consistent h entities es options :
  elements h entities = Some es ->
  exists dir r h' page,
    returns_page this h entities options dir r h' page /\
    count (pagination r) = Z.of_nat (List.length page) /\
    (nextCursor (pagination r) <> None <-> hasNextPage (pagination r) = true) /\
    (prevCursor (pagination r) <> None <-> hasPrevPage (pagination r) = true).
Proof.
  intros Hes.
  destruct (buildResult_returns_page h entities es options Hes)
    as (dir & r & h' & Hrun & _ & Hcount & Hnext & Hprev & Hnc & Hpc).
  exists dir, r, h', (presented dir (trimmed es (limit options))).
  split; [exact Hrun|]. split; [exact Hcount|].
  rewrite Hnc, Hpc.
  destruct (presented dir (trimmed es (limit options))) as [|e0 page'] eqn:Epage.
  - rewrite Hnext, Hprev. cbn. split; split; congruence.
  - assert (Hp : e0 :: page' <> []) by discriminate.
    destruct (last_error_nonempty _ Hp) as [e ->]. cbn [hd_error cursorOf].
    destruct (hasNextPage (pagination r)), (hasPrevPage (pagination r));
      split; split; congruence.
Qed.

(** The array [entities] after the call: reversed when the page is
    presented backward and nothing was trimmed, and as before otherwise. *)
Lemma buildResult_entities_after h entities es options :
  elements h entities = Some es ->
  exists dir r h' page,
    returns_page this h entities options dir r h' page /\
    elements h' entities
    = Some (if is_backward dir && negb (overfetched es (limit options)) then rev es else es).
Proof.
  intros Hes.
  destruct (buildResult_returns_page h entities es options Hes)
    as (dir & r & h' & Hrun & Hafter & _).
  eauto 10.
Qed.

End BuilderClaims.

(** Below the limits of a request, at a limit of 0: one entity is more
    than the limit, and the direction is forward; the page is empty, so
    the guard [data.length > 0] leaves [hasNextPage] false. *)
Lemma buildResult_at_limit_zero :
  exists r h',
    buildResult (createIdPaginator id) 0%nat
      {| limit := 0; cursor := None; defaultDirection := None |} [[createEntity 1]]
    = Normal (r, h') /\
    effectiveDirection (createIdPaginator id)
      {| limit := 0; cursor := None; defaultDirection := None |}
    = Normal (JString (str "forward")) /\
    0 < Z.of_nat (List.length [createEntity 1]) /\
    elements h' (data r) = Some [] /\
    hasNextPage (pagination r) <> true.
Proof.
  eexists _, _. split; [vm_compute; reflexivity|].
  split; [reflexivity|]. split; [cbn; lia|]. split; [reflexivity|]. cbn. discriminate.
Qed.

(** C6. [buildResult] writes to its argument.  A page before [id-3] is
    asked for with a limit of 20 and the token of
    [{"v":"id-3","d":"backward"}]; the batch fetched in descending order
    holds [id-2] and [id-1].  Nothing is trimmed, so [items] is the array
    [entities] itself, and [items.reverse()] reverses it in place: after
    the call [entities] holds [id-1] and [id-2]. *)
Theorem buildResult_reverses_entities_in_place :
  Utf8.decode (Base64Url.decode (str "eyJ2IjoiaWQtMyIsImQiOiJiYWNrd2FyZCJ9"))
  = json_text "{'v':'id-3','d':'backward'}"
  /\ exists r h',
       buildResult (createIdPaginator id) 0%nat
         {| limit := 20; cursor := Some (str "eyJ2IjoiaWQtMyIsImQiOiJiYWNrd2FyZCJ9");
            defaultDirection := None |}
         [[createEntity 2; createEntity 1]]
       = Normal (r, h') /\
       data r = 0%nat /\
       elements h' 0%nat = Some [createEntity 1; createEntity 2] /\
       [createEntity 1; createEntity 2] <> [createEntity 2; createEntity 1].
Proof.
  split; [vm_compute; reflexivity|].
  eexists _, _. split; [vm_compute; reflexivity|].
  split; [reflexivity|]. split; [reflexivity|]. vm_compute. discriminate.
Qed.

(** ** The claims at the inputs of the unit tests

    Three entities with a limit of 2, no cursor and no default
    direction; the batch of the backward page above; and the empty
    array. *)

Lemma flags_and_cursors_by_direction_witness :
  elements [createEntities 3] 0%nat = Some (createEntities 3) /\
  trimmed (createEntities 3) 2 <> [] /\
  exists dir r h' page,
    returns_page (createIdPaginator id) [createEntities 3] 0%nat
      {| limit := 2; cursor := None; defaultDirection := None |} dir r h' page /\
    page = presented dir (trimmed (createEntities 3) 2) /\
    (dir = JString (str "forward") ->
       hasNextPage (pagination r) = overfetched (createEntities 3) 2 /\
       hasPrevPage (pagination r) = false) /\
    (dir = JString (str "backward") ->
       hasNextPage (pagination r) = false /\
       hasPrevPage (pagination r) = overfetched (createEntities 3) 2) /\
    (hasNextPage (pagination r) = true ->
       exists lastItem, last_error page = Some lastItem /\
         nextCursor (pagination r)
         = Some (encode (createIdPaginator id) (id lastItem) forward)) /\
    (hasPrevPage (pagination r) = true ->
       exists firstItem, hd_error page = Some firstItem /\
         prevCursor (pagination r)
         = Some (encode (createIdPaginator id) (id firstItem) backward)).
Proof.
  assert (H1 : elements [createEntities 3] 0%nat = Some (createEntities 3)) by reflexivity.
  assert (H2 : trimmed (createEntities 3) 2 <> []) by (vm_compute; discriminate).
  split; [exact H1|]. split; [exact H2|].
  exact (flags_and_cursors_by_direction (createIdPaginator id) [createEntities 3] 0%nat
           (createEntities 3) {| limit := 2; cursor := None; defaultDirection := None |}
           H1 H2).
Defined.

Lemma windowing_witness :
  elements [createEntities 3] 0%nat = Some (createEntities 3) /\
  1 <= 2 /\
  exists dir r h' page,
    returns_page (createIdPaginator id) [createEntities 3] 0%nat
      {| limit := 2; cursor := None; defaultDirection := None |} dir r h' page /\
    (2 < Z.of_nat (List.length (createEntities 3)) ->
       Z.of_nat (List.length page) = 2 /\
       page = presented dir (firstn (Z.to_nat 2) (createEntities 3)) /\
       (dir = JString (str "forward") -> hasNextPage (pagination r) = true) /\
       (dir = JString (str "backward") -> hasPrevPage (pagination r) = true)) /\
    (Z.of_nat (List.length (createEntities 3)) <= 2 ->
       List.length page = List.length (createEntities 3) /\
       (dir = JString (str "forward") -> hasNextPage (pagination r) = false) /\
       (dir = JString (str "backward") -> hasPrevPage (pagination r) = false)).
Proof.
  assert (H1 : elements [createEntities 3] 0%nat = Some (createEntities 3)) by reflexivity.
  assert (H2 : 1 <= 2) by lia.
  split; [exact H1|]. split; [exact H2|].
  exact (windowing (createIdPaginator id) [createEntities 3] 0%nat
           (createEntities 3) {| limit := 2; cursor := None; defaultDirection := None |}
           H1 H2).
Defined.

Lemma backward_reversal_witness :
  elements [[createEntity 2; createEntity 1]] 0%nat = Some [createEntity 2; createEntity 1] /\
  exists dir r h' page,
    returns_page (createIdPaginator id) [[createEntity 2; createEntity 1]] 0%nat
      {| limit := 20; cursor := Some (str "eyJ2IjoiaWQtMyIsImQiOiJiYWNrd2FyZCJ9");
         defaultDirection := None |} dir r h' page /\
    (dir = JString (str "backward") ->
       page = rev (trimmed [createEntity 2; createEntity 1] 20) /\
       forall before : TestEntity -> TestEntity -> Prop,
         StronglySorted (fun a b => before b a) (trimmed [createEntity 2; createEntity 1] 20) ->
         StronglySorted before page) /\
    (dir = JString (str "forward") -> page = trimmed [createEntity 2; createEntity 1] 20) /\
    (0 <= 20 ->
       trimmed [createEntity 2; createEntity 1] 20
       = firstn (Z.to_nat 20) [createEntity 2; createEntity 1]) /\
    (forall before : TestEntity -> TestEntity -> Prop,
       0 <= 20 ->
       StronglySorted before [createEntity 2; createEntity 1] ->
       StronglySorted before (trimmed [createEntity 2; createEntity 1] 20)).
Proof.
  assert (H1 : elements [[createEntity 2; createEntity 1]] 0%nat
               = Some [createEntity 2; createEntity 1]) by reflexivity.
  split; [exact H1|].
  exact (backward_reversal (createIdPaginator id) [[createEntity 2; createEntity 1]] 0%nat
           [createEntity 2; createEntity 1]
           {| limit := 20; cursor := Some (str "eyJ2IjoiaWQtMyIsImQiOiJiYWNrd2FyZCJ9");
              defaultDirection := None |}
           H1).
Defined.

Lemma empty_input_result_witness :
  elements [@nil TestEntity] 0%nat = Some [] /\
  exists r h',
    buildResult (createIdPaginator id) 0%nat
      {| limit := 20; cursor := None; defaultDirection := None |} [[]] = Normal (r, h') /\
    elements h' (data r) = Some [] /\
    pagination r = {| nextCursor := None; prevCursor := None;
                      hasNextPage := false; hasPrevPage := false; count := 0 |}.
Proof.
  assert (H1 : elements [@nil TestEntity] 0%nat = Some []) by reflexivity.
  split; [exact H1|].
  exact (empty_input_result (createIdPaginator id) [[]] 0%nat
           {| limit := 20; cursor := None; defaultDirection := None |} H1).
Defined.

Lemma result_internally_consistent_witness :
  elements [createEntities 3] 0%nat = Some (createEntities 3) /\
  exists dir r h' page,
    returns_page (createIdPaginator id) [createEntities 3] 0%nat
      {| limit := 2; cursor := None; defaultDirection := None |} dir r h' page /\
    count (pagination r) = Z.of_nat (List.length page) /\
    (nextCursor (pagination r) <> None <-> hasNextPage (pagination r) = true) /\
    (prevCursor (pagination r) <> None <-> hasPrevPage (pagination r) = true).
Proof.
  assert (H1 : elements [createEntities 3] 0%nat = Some (createEntities 3)) by reflexivity.
  split; [exact H1|].
  exact (result_internally_consistent (createIdPaginator id) [createEntities 3] 0%nat
           (createEntities 3) {| limit := 2; cursor := None; defaultDirection := None |} H1).
Defined.

(** The scenarios of the unit tests: 21 entities and a limit of 20
    without a cursor; 15 entities; 21 entities with the token of a
    forward cursor. *)
Example buildResult_scenarios :
  (exists r h',
     buildResult (createIdPaginator id) 0%nat
       {| limit := 20; cursor := None; defaultDirection := None |} [createEntities 21]
     = Normal (r, h') /\
     elements h' (data r) = Some (createEntities 20) /\
     hasNextPage (pagination r) = true /\ hasPrevPage (pagination r) = false /\
     prevCursor (pagination r) = None /\ count (pagination r) = 20 /\
     option_map (decode (createIdPaginator id)) (nextCursor (pagination r))
     = Some (Normal (Some {| value := JString (str "id-20");
                             direction := JString (str "forward") |}))) /\
  (exists r h',
     buildResult (createIdPaginator id) 0%nat
       {| limit := 20; cursor := None; defaultDirection := None |} [createEntities 15]
     = Normal (r, h') /\
     elements h' (data r) = Some (createEntities 15) /\
     hasNextPage (pagination r) = false /\ nextCursor (pagination r) = None /\
     count (pagination r) = 15) /\
  (exists r h',
     buildResult (createIdPaginator id) 0%nat
       {| limit := 20;
          cursor := Some (encode (createIdPaginator id) (str "some-previous-id") forward);
          defaultDirection := None |} [createEntities 21]
     = Normal (r, h') /\
     hasNextPage (pagination r) = true /\ hasPrevPage (pagination r) = true /\
     nextCursor (pagination r) <> None /\ prevCursor (pagination r) <> None).
Proof.
  repeat split; eexists _, _; (split; [vm_compute; reflexivity|]); cbn [pagination data];
    repeat split; try reflexivity; try discriminate.
Qed.

(** ** The Result type *)

Section ResultFacts.
Import Result.
Context {T U W E F X : Type}.

Lemma all_loop_oks (values : list T) (acc : list T) (rest : list (Result T E)) :
  all_loop (List.map Ok values ++ rest) acc = all_loop rest (acc ++ values).
Proof.
  revert acc. induction values as [|v values IH]; intros acc; cbn [List.map app all_loop].
  - rewrite app_nil_r. reflexivity.
  - rewrite IH, <- app_assoc. reflexivity.
Qed.

Lemma all_loop_inv (results : list (Result T E)) (acc : list T) :
  (exists values, results = List.map Ok values /\ all_loop results acc = Ok (acc ++ values))
  \/ (exists values error rest,
        results = List.map Ok values ++ Err error :: rest /\
        all_loop results acc = Err error).
Proof.
  revert acc. induction results as [|[v|e] results IH]; intros acc.
  - left. exists []. rewrite app_nil_r. split; reflexivity.
  - cbn [all_loop].
    destruct (IH (acc ++ [v])) as [(values & -> & H)|(values & error & rest & -> & H)].
    + left. exists (v :: values). rewrite H, <- app_assoc. split; reflexivity.
    + right. exists (v :: values), error, rest. rewrite H. split; reflexivity.
  - right. exists [], e, results. split; reflexivity.
Qed.

(** X1. [all] gives Ok exactly when every result is Ok, and then with
    the values of the results in their order. *)
Theorem all_ok_iff (results : list (Result T E)) (values : list T) :
  all results = Ok values <-> results = List.map Ok values.
Proof.
  unfold all. split.
  - intros H. destruct (all_loop_inv results []) as [(vs & -> & H')|(vs & e & rest & -> & H')].
    + rewrite H' in H. injection H as <-. reflexivity.
    + rewrite H' in H. discriminate.
  - intros ->. rewrite <- (app_nil_r (List.map Ok values)), all_loop_oks. reflexivity.
Qed.

(** X2. [all] gives an Err exactly when some result is an Err, and then
    the first one: the results before it are Ok, and nothing is said of
    the results after it. *)
Theorem all_err_iff (results : list (Result T E)) (error : E) :
  all results = Err error <->
  exists values rest, results = List.map Ok values ++ Err error :: rest.
Proof.
  unfold all. split.
  - intros H. destruct (all_loop_inv results []) as [(vs & -> & H')|(vs & e & rest & -> & H')].
    + rewrite H' in H. discriminate.
    + rewrite H' in H. injection H as <-. eauto.
  - intros (values & rest & ->). rewrite all_loop_oks. reflexivity.
Qed.

(** X3. [andThen] with [ok] is a monad, also for callbacks that throw:
    [ok] is a unit on both sides, and chaining is associative; on an Err
    the callback is not called: the Err is returned, also for a
    callback that throws on every value. *)
Theorem andThen_monad_laws (r : Result T E) (x : T)
    (f : T -> Outcome X (Result U E)) (g : U -> Outcome X (Result W E)) :
  andThen (ok x) f = f x /\
  andThen (X := X) r (fun v => Returns (ok v)) = Returns r /\
  (forall error : E, andThen (Err error) f = Returns (Err error)) /\
  match andThen r f with
  | Returns r' => andThen r' g
  | Throws t => Throws t
  end
  = andThen r (fun v => match f v with
                        | Returns r' => andThen r' g
                        | Throws t => Throws t
                        end).
Proof.
  split; [reflexivity|]. split; [destruct r; reflexivity|].
  split; [intros error; reflexivity|]. destruct r; reflexivity.
Qed.

(** [map] and [mapErr] act on one side each and commute: mapping
    the value and then the error gives what mapping the error and then
    the value gives, when neither callback throws; and [map] is [andThen]
    with [ok] after the callback. *)
Lemma map_mapErr_commute (r : Result T E) (f : T -> U) (g : E -> F) :
  match map (X := X) r (fun v => Returns (f v)) with
  | Returns r' => mapErr r' (fun e => Returns (g e))
  | Throws t => Throws t
  end
  = match mapErr (X := X) r (fun e => Returns (g e)) with
    | Returns r' => map r' (fun v => Returns (f v))
    | Throws t => Throws t
    end
  /\ forall h : T -> Outcome X U,
       map r h
       = andThen r (fun v => match h v with
                             | Returns u => Returns (ok u)
                             | Throws t => Throws t
                             end).
Proof.
  split; [|intros h]; destruct r; reflexivity.
Qed.

End ResultFacts.

(** X4. [tryCatch] undoes [unwrap]: for a result whose error is an
    instance of [Error], catching what [unwrap] throws returns the
    result. *)
Theorem tryCatch_unwrap (T ErrorT V : Type)
    (toString : V -> Result.Outcome (Result.Thrown ErrorT V) jsstring)
    (newError : jsstring -> ErrorT) (r : Result.Result T ErrorT) :
  Result.tryCatch toString newError
    (fun _ => match Result.unwrap r with
              | Result.Returns v => Result.Returns v
              | Result.Throws e => Result.Throws (Result.ThrownError e)
              end) = Result.Returns r.
Proof.
  destruct r; reflexivity.
Qed.

(** ** The two decoders *)

Lemma jsstring_eqb_refl (s : jsstring) : jsstring_eqb s s = true.
Proof.
  induction s as [|x s IH]; simpl; [reflexivity|]. rewrite Z.eqb_refl, IH. reflexivity.
Qed.

Lemma direction_literal_inj (d d' : CursorDirection) :
  direction_literal d = direction_literal d' -> d = d'.
Proof.
  destruct d, d'; intros H; try reflexivity; vm_compute in H; discriminate.
Qed.

(** X5. [equals] is equality of the two fields: two cursors are equal
    exactly when they hold the same value and the same direction. *)
Theorem Cursor_equals_iff (c c' : Cursor.Cursor) : Cursor.equals c c' = true <-> c = c'.
Proof.
  unfold Cursor.equals. split.
  - intros H. apply andb_prop in H as [Hv Hd].
    apply jsstring_eqb_eq in Hv. apply jsstring_eqb_eq, direction_literal_inj in Hd.
    destruct c, c'. cbn in *. subst. reflexivity.
  - intros ->. rewrite !jsstring_eqb_refl. reflexivity.
Qed.

(** X6. [Cursor.decode] accepts exactly the tokens whose payload is a
    JSON object with a string under [v] and one of the two direction
    literals under [d], and gives these two; other members of the object
    are ignored. *)
Theorem Cursor_decode_some_iff (token : jsstring) (c : Cursor.Cursor) :
  Cursor.decode token = Normal (Some c) <->
  exists members,
    JSON.parse (Utf8.decode (Base64Url.decode token)) = Normal (JObject members) /\
    own_property members (str "v") = Some (JString (Cursor.value c)) /\
    own_property members (str "d") = Some (JString (direction_literal (Cursor.direction c))).
Proof.
  split; [apply Cursor_decode_validates|].
  intros (members & Hp & Hv & Hd). unfold Cursor.decode. cbv zeta. rewrite Hp.
  cbn [bind Cursor.cursorPayloadSchema_parse]. unfold Cursor.shape_field.
  rewrite Hv, Hd. cbn [Cursor.z_string bind]. destruct c as [v [|]]; reflexivity.
Qed.

Lemma JsValue_is_null (j : JsValue) : j = JNull \/ j <> JNull.
Proof. destruct j; (left; reflexivity) || (right; discriminate). Qed.

(** The parser never gives [undefined]. *)
Lemma parse_tokens_defined ts :
  forall mode stack v,
    match mode with JSON.PDone u => u <> JUndefined | _ => True end ->
    JSON.parse_tokens mode stack ts = Some v -> v <> JUndefined.
Proof.
  induction ts as [|t ts IH]; intros mode stack v Hmode H; cbn [JSON.parse_tokens] in H.
  - destruct mode; try discriminate. destruct stack; [|discriminate].
    injection H as <-. exact Hmode.
  - destruct (JSON.parse_step mode stack t) as [[mode' stack']|] eqn:E; [|discriminate].
    apply (IH mode' stack' v); [|exact H]. clear IH H.
    destruct mode; cbn [JSON.parse_step] in E.
    + destruct t; cbn in E; try discriminate; injection E as <- <-; try exact I; discriminate.
    + destruct t; cbn in E; try discriminate; injection E as <- <-; try exact I; discriminate.
    + destruct t; try discriminate; injection E as <- <-; try exact I; discriminate.
    + destruct t; try discriminate; injection E as <- <-; exact I.
    + destruct t; try discriminate; injection E as <- <-; exact I.
    + destruct stack as [|[elements|members k] stack'']; [discriminate| |];
        destruct t; try discriminate; injection E as <- <-; try exact I; discriminate.
Qed.

Lemma parse_defined text j : JSON.parse text = Normal j -> j <> JUndefined.
Proof.
  unfold JSON.parse. destruct (JSON.lex JSON.LStart text) as [ts|]; [|discriminate].
  destruct (JSON.parse_tokens JSON.PValue [] ts) as [v|] eqn:E; [|discriminate].
  intros H. injection H as <-. apply (parse_tokens_defined ts JSON.PValue [] v I E).
Qed.

Lemma property_field_of j name :
  j <> JUndefined -> j <> JNull -> property j name = Normal (field_of j name).
Proof.
  intros H1 H2. destruct j; try congruence; try reflexivity.
  cbn [property field_of]. unfold Cursor.shape_field.
  destruct (own_property members name); reflexivity.
Qed.

Section DecoderFacts.
Context {TCursor TDecoded TEntity : Type}.
Variable this : CursorPaginator TCursor TDecoded TEntity.

(** X7. [CursorPaginator.decode] accepts exactly the tokens whose payload
    is JSON text other than [null] and on whose [v] the deserializer
    does not throw; the cursor holds what the deserializer returns and
    what the payload holds under [d], be it missing or of any type. *)
Theorem paginator_decode_some_iff (token : jsstring) (dc : DecodedCursor TDecoded) :
  decode this token = Normal (Some dc) <->
  exists payload,
    JSON.parse (Utf8.decode (Base64Url.decode token)) = Normal payload /\
    payload <> JNull /\
    deserializeCursor this (field_of payload (str "v")) = Normal (value dc) /\
    direction dc = field_of payload (str "d").
Proof.
  unfold decode. cbv zeta. split.
  - destruct (JSON.parse _) as [j|e] eqn:Hp; cbn [bind try_catch]; [|discriminate].
    pose proof (parse_defined _ _ Hp) as Hdef.
    destruct (JsValue_is_null j) as [->|Hnull]; [discriminate|].
    rewrite !(property_field_of j _ Hdef Hnull). cbn [bind].
    destruct (deserializeCursor this (field_of j (str "v"))) as [v|e] eqn:Hde;
      cbn [bind try_catch]; [|discriminate].
    intros H. injection H as <-. exists j. repeat split; assumption.
  - intros (j & Hp & Hnull & Hde & Hd). rewrite Hp. cbn [bind].
    pose proof (parse_defined _ _ Hp) as Hdef.
    rewrite !(property_field_of j _ Hdef Hnull). cbn [bind]. rewrite Hde. cbn [bind try_catch].
    rewrite <- Hd. destruct dc. reflexivity.
Qed.

End DecoderFacts.

(** ** More on the codec *)

Lemma round_trip_identity_strategy (v : jsstring) (d : CursorDirection) :
  is_jsstring v ->
  decode (createIdPaginator (fun s : jsstring => s))
    (encode (createIdPaginator (fun s : jsstring => s)) v d)
  = Normal (Some {| value := JString v; direction := JString (direction_literal d) |})
  /\ Cursor.decode (Cursor.encode {| Cursor.value := v; Cursor.direction := d |})
     = Normal (Some {| Cursor.value := v; Cursor.direction := d |}).
Proof.
  intros Hv. split.
  - apply (decode_encode_strategy (createIdPaginator (fun s : jsstring => s)) v d (JString v));
      [exact Hv|reflexivity].
  - assert (Hd : is_jsstring (direction_literal d)) by (destruct d; apply is_jsstring_str).
    unfold Cursor.decode, Cursor.encode. cbn [Cursor.value Cursor.direction].
    rewrite payload_of_encode, parse_stringify_payload by assumption.
    destruct d; reflexivity.
Qed.

Lemma alphabet_url_safe s : 0 <= s < 64 -> url_safe (Base64Url.alphabet s).
Proof.
  intros H. unfold url_safe, Base64Url.alphabet.
  destruct (Z.ltb_spec s 26); [lia|]. destruct (Z.ltb_spec s 52); [lia|].
  destruct (Z.ltb_spec s 62); [lia|]. destruct (Z.eqb_spec s 62); lia.
Qed.

Lemma base64url_text_url_safe bs :
  Forall Base64Url.is_byte bs -> Forall url_safe (Base64Url.encode bs).
Proof.
  intros H. unfold Base64Url.encode. apply Forall_map.
  apply (Forall_impl _ alphabet_url_safe), sextets_in_range, H.
Qed.

Section TokenFacts.
Context {TCursor TDecoded TEntity : Type}.
Variable this : CursorPaginator TCursor TDecoded TEntity.

(** X8. A token is not empty and is made of letters, digits, [-] and
    [_] only: it needs no escaping in a URL, it holds no padding, and
    [buildResult] does not take it for a missing cursor. *)
Theorem encode_url_safe (v : TCursor) (d : CursorDirection) :
  is_jsstring (serializeCursor this v) ->
  encode this v d <> [] /\ Forall url_safe (encode this v d).
Proof.
  intros Hv.
  assert (Hd : is_jsstring (direction_literal d)) by (destruct d; apply is_jsstring_str).
  unfold encode. split.
  - rewrite stringify_payload. cbn [app].
    change (Utf8.encode (123 :: ?r)) with (123 :: Utf8.encode r).
    destruct (Utf8.encode _) as [|b1 [|b2 r]]; discriminate.
  - apply base64url_text_url_safe, utf8_encode_bytes, stringify_payload_well_formed;
      assumption.
Qed.

(** X9. Two tokens are equal only when they were written for the same
    serialized value and the same direction. *)
Theorem encode_injective (v v' : TCursor) (d d' : CursorDirection) :
  is_jsstring (serializeCursor this v) ->
  is_jsstring (serializeCursor this v') ->
  encode this v d = encode this v' d' ->
  serializeCursor this v = serializeCursor this v' /\ d = d'.
Proof.
  intros Hv Hv' E.
  pose proof (proj1 (round_trip_identity_strategy (serializeCursor this v) d Hv)) as D.
  pose proof (proj1 (round_trip_identity_strategy (serializeCursor this v') d' Hv')) as D'.
  change (encode (createIdPaginator (fun s : jsstring => s)) (serializeCursor this v) d)
    with (encode this v d) in D.
  change (encode (createIdPaginator (fun s : jsstring => s)) (serializeCursor this v') d')
    with (encode this v' d') in D'.
  rewrite E, D' in D. injection D as E1 E2.
  split; [symmetry; exact E1|]. symmetry. apply direction_literal_inj, E2.
Qed.

End TokenFacts.

(** ** More on the page builder *)

Lemma store_update_alloc (T : Type) (h : store T) (x y : list T) :
  store_update (h ++ [x]) (List.length h) y = h ++ [y].
Proof.
  induction h as [|z h IH]; cbn [app List.length store_update]; [reflexivity|].
  rewrite IH. reflexivity.
Qed.

Lemma length_store_update (T : Type) (h : store T) (a : ref) (l : list T) :
  List.length (store_update h a l) = List.length h.
Proof.
  revert a. induction h as [|z h IH]; intros [|a]; cbn [store_update List.length];
    try reflexivity. rewrite IH. reflexivity.
Qed.

Lemma In_slice (T : Type) (l : list T) (start end_ : Z) (x : T) :
  In x (slice l start end_) -> In x l.
Proof.
  unfold slice. intros H.
  rewrite <- (firstn_skipn (Z.to_nat (if start <? 0
                                      then Z.max (Z.of_nat (List.length l) + start) 0
                                      else Z.min start (Z.of_nat (List.length l)))) l).
  apply in_or_app. right.
  match type of H with In _ (firstn ?n ?m) => rewrite <- (firstn_skipn n m) end.
  apply in_or_app. left. exact H.
Qed.

Lemma In_presented_trimmed (T : Type) (dir : JsValue) (l : list T) (n : Z) (x : T) :
  In x (presented dir (trimmed l n)) -> In x l.
Proof.
  unfold presented, trimmed. intros H.
  assert (H' : In x (if overfetched l n then slice l 0 n else l))
    by (destruct (is_backward dir); [apply in_rev|]; exact H).
  destruct (overfetched l n); [apply (In_slice _ _ _ _ _ H')|exact H'].
Qed.

Lemma last_error_In (T : Type) (l : list T) (x : T) : last_error l = Some x -> In x l.
Proof. unfold last_error. apply nth_error_In. Qed.

Lemma hd_error_In (T : Type) (l : list T) (x : T) : hd_error l = Some x -> In x l.
Proof. destruct l; simpl; [discriminate|]. intros H. injection H as ->. left. reflexivity. Qed.

Section BuilderExtras.
Context {TCursor TDecoded TEntity : Type}.
Variable this : CursorPaginator TCursor TDecoded TEntity.
Implicit Types (h : store TEntity) (es : list TEntity).

(** The store a call of [buildResult] leaves, and the array it returns. *)
Lemma buildResult_store h entities es options dir :
  elements h entities = Some es ->
  effectiveDirection this options = Normal dir ->
  exists r,
    buildResult this entities options h
    = Normal (r, if overfetched es (limit options)
                 then h ++ [presented dir (slice es 0 (limit options))]
                 else if is_backward dir then store_update h entities (rev es) else h) /\
    data r = if overfetched es (limit options) then List.length h else entities.
Proof.
  intros Hes Hdir.
  unfold buildResult, mbind at 1 2 3 4, lift. rewrite Hdir.
  rewrite (array_length_elements _ _ _ Hes).
  fold (overfetched es (limit options)).
  fold (is_backward dir). fold (is_forward dir). fold (cursorDefined options).
  unfold presented.
  destruct (overfetched es (limit options)) eqn:Emore.
  - unfold array_slice at 1. unfold with_array at 1. rewrite Hes.
    set (items := slice es 0 (limit options)).
    destruct (is_backward dir) eqn:Eback.
    + unfold array_reverse, with_array at 1. rewrite elements_alloc_new.
      rewrite store_update_alloc.
      destruct (buildResult_finish this (h ++ [rev items]) (List.length h) (rev items) true
                  (cursorDefined options) (is_forward dir) (elements_alloc_new _ _))
        as (r & Hr & Hd & _).
      exists r. split; assumption.
    + unfold ret at 1.
      destruct (buildResult_finish this (h ++ [items]) (List.length h) items true
                  (cursorDefined options) (is_forward dir) (elements_alloc_new _ _))
        as (r & Hr & Hd & _).
      exists r. split; assumption.
  - unfold ret at 1.
    destruct (is_backward dir) eqn:Eback.
    + unfold array_reverse, with_array at 1. rewrite Hes.
      destruct (buildResult_finish this (store_update h entities (rev es)) entities (rev es)
                  false (cursorDefined options) (is_forward dir)
                  (elements_update_same _ _ _ _ Hes))
        as (r & Hr & Hd & _).
      exists r. split; assumption.
    + unfold ret at 1.
      destruct (buildResult_finish this h entities es false
                  (cursorDefined options) (is_forward dir) Hes) as (r & Hr & Hd & _).
      exists r. split; assumption.
Qed.

(** X10. What [buildResult] touches.  It writes to no array but
    [entities].  When the batch is trimmed, [data] is a new array and
    [entities] is left as it was; when nothing is trimmed, no array is
    made, [data] is the array [entities] itself, and it holds the page:
    the batch reversed when the direction is backward. *)
Theorem buildResult_frame h entities es options :
  elements h entities = Some es ->
  exists dir r h',
    effectiveDirection this options = Normal dir /\
    buildResult this entities options h = Normal (r, h') /\
    (forall other l, other <> entities -> elements h other = Some l ->
                     elements h' other = Some l) /\
    (overfetched es (limit options) = true ->
       data r = List.length h /\ List.length h' = S (List.length h) /\
       elements h' entities = Some es) /\
    (overfetched es (limit options) = false ->
       data r = entities /\ List.length h' = List.length h /\
       elements h' entities = Some (presented dir es)).
Proof.
  intros Hes. destruct (effectiveDirection_returns this options) as [dir Hdir].
  destruct (buildResult_store h entities es options dir Hes Hdir) as (r & Hrun & Hdata).
  exists dir, r. eexists. split; [exact Hdir|]. split; [exact Hrun|].
  destruct (overfetched es (limit options)).
  - split; [|split; [intros _|discriminate]].
    + intros other l _ Hl. apply elements_alloc_old, Hl.
    + split; [exact Hdata|]. split; [|apply elements_alloc_old, Hes].
      rewrite length_app. cbn [List.length]. lia.
  - split; [|split; [discriminate|intros _]].
    + intros other l Hne Hl. destruct (is_backward dir); [|exact Hl].
      rewrite elements_update_other by congruence. exact Hl.
    + split; [exact Hdata|]. unfold presented. destruct (is_backward dir).
      * split; [apply length_store_update|]. apply (elements_update_same _ _ _ es), Hes.
      * split; [reflexivity|exact Hes].
Qed.

(** X11. The size of a page, for a limit that is not negative: [count]
    is the smaller of [limit] and [entities.length], so a page never
    holds more than [limit] elements, whatever the batch. *)
Theorem page_size h entities es options :
  elements h entities = Some es ->
  0 <= limit options ->
  exists dir r h' page,
    returns_page this h entities options dir r h' page /\
    Z.of_nat (List.length page) = Z.min (limit options) (Z.of_nat (List.length es)) /\
    count (pagination r) = Z.min (limit options) (Z.of_nat (List.length es)).
Proof.
  intros Hes Hlimit.
  destruct (buildResult_returns_page this h entities es options Hes)
    as (dir & r & h' & Hrun & _ & Hcount & _).
  exists dir, r, h', (presented dir (trimmed es (limit options))).
  split; [exact Hrun|]. rewrite Hcount, length_presented, trimmed_prefix by exact Hlimit.
  rewrite length_firstn. split; lia.
Qed.

End BuilderExtras.

Section NavigationFacts.
Context {TEntity : Type}.
Variable key : TEntity -> jsstring.
Implicit Types (h : store TEntity) (es : list TEntity).

(** X12. The cursors of a result lead on.  With the identity strategy
    and keys that are strings, [nextCursor] decodes to the key of the
    last element of the page with the direction forward and
    [prevCursor] to the key of its first element with the direction
    backward; and a request that carries one of them is built in that
    direction, whatever its default direction. *)
Theorem returned_cursors_navigate h entities es options :
  elements h entities = Some es ->
  Forall (fun e => is_jsstring (key e)) es ->
  exists dir r h' page,
    returns_page (createIdPaginator key) h entities options dir r h' page /\
    (forall token, nextCursor (pagination r) = Some token ->
       exists lastItem,
         last_error page = Some lastItem /\
         decode (createIdPaginator key) token
         = Normal (Some {| value := JString (key lastItem);
                           direction := JString (str "forward") |}) /\
         forall n d0,
           effectiveDirection (createIdPaginator key)
             {| limit := n; cursor := Some token; defaultDirection := d0 |}
           = Normal (JString (str "forward"))) /\
    (forall token, prevCursor (pagination r) = Some token ->
       exists firstItem,
         hd_error page = Some firstItem /\
         decode (createIdPaginator key) token
         = Normal (Some {| value := JString (key firstItem);
                           direction := JString (str "backward") |}) /\
         forall n d0,
           effectiveDirection (createIdPaginator key)
             {| limit := n; cursor := Some token; defaultDirection := d0 |}
           = Normal (JString (str "backward"))).
Proof.
  intros Hes Hkeys.
  destruct (buildResult_returns_page (createIdPaginator key) h entities es options Hes)
    as (dir & r & h' & Hrun & _ & _ & _ & _ & Hnc & Hpc).
  exists dir, r, h', (presented dir (trimmed es (limit options))).
  split; [exact Hrun|]. rewrite Forall_forall in Hkeys.
  split; intros token Ht.
  - rewrite Hnc in Ht. unfold cursorOf in Ht.
    destruct (last_error _) as [e|] eqn:He; [|discriminate].
    destruct (hasNextPage _); [|discriminate]. injection Ht as <-.
    assert (Hk : is_jsstring (key e))
      by (apply Hkeys, (In_presented_trimmed _ dir es (limit options)), last_error_In, He).
    exists e. split; [reflexivity|]. split.
    + apply (decode_encode_strategy (createIdPaginator key) (key e) forward (JString (key e)));
        [exact Hk|reflexivity].
    + intros n d0.
      apply (effectiveDirection_of_encoded (createIdPaginator key) _ (key e) forward
               (JString (key e))); [exact Hk|reflexivity|reflexivity].
  - rewrite Hpc in Ht. unfold cursorOf in Ht.
    destruct (hd_error _) as [e|] eqn:He; [|discriminate].
    destruct (hasPrevPage _); [|discriminate]. injection Ht as <-.
    assert (Hk : is_jsstring (key e))
      by (apply Hkeys, (In_presented_trimmed _ dir es (limit options)), hd_error_In, He).
    exists e. split; [reflexivity|]. split.
    + apply (decode_encode_strategy (createIdPaginator key) (key e) backward (JString (key e)));
        [exact Hk|reflexivity].
    + intros n d0.
      apply (effectiveDirection_of_encoded (createIdPaginator key) _ (key e) backward
               (JString (key e))); [exact Hk|reflexivity|reflexivity].
Qed.

End NavigationFacts.

(** ** The value object and the paginator *)

(** X13. The value object and the paginator with the identity strategy
    write the same token for the same value and direction, and
    [Cursor.decode] accepts a token exactly when the paginator reads a
    string and a direction literal from it, which are then the fields
    of the value object. *)
Theorem Cursor_and_paginator_agree (TEntity : Type) (key : TEntity -> jsstring)
    (token : jsstring) (c : Cursor.Cursor) :
  Cursor.encode c = encode (createIdPaginator key) (Cursor.value c) (Cursor.direction c) /\
  (Cursor.decode token = Normal (Some c) <->
   decode (createIdPaginator key) token
   = Normal (Some {| value := JString (Cursor.value c);
                     direction := JString (direction_literal (Cursor.direction c)) |})).
Proof.
  split; [reflexivity|]. split.
  - intros H. destruct (Cursor_decode_validates token c H) as (members & Hp & Hv & Hd).
    rewrite (decode_of_object TEntity key token members Hp).
    unfold Cursor.shape_field. rewrite Hv, Hd. reflexivity.
  - intros H. unfold decode in H. cbv zeta in H.
    destruct (JSON.parse _) as [j|e] eqn:Hp; cbn [bind try_catch] in H; [|discriminate].
    destruct j as [| | | | | |members]; cbn [property bind try_catch] in H; try discriminate.
    unfold Cursor.decode. cbv zeta. rewrite Hp.
    cbn [bind Cursor.cursorPayloadSchema_parse]. unfold Cursor.shape_field.
    destruct (own_property members (str "v")) as [x|], (own_property members (str "d")) as [y|];
      cbn [createIdPaginator deserializeCursor bind try_catch] in H;
      injection H as Hx Hy; try discriminate Hx; try discriminate Hy.
    subst x y. cbn [Cursor.z_string bind]. destruct c as [v [|]]; reflexivity.
Qed.

(** ** The repositories *)

Lemma member_app (V : Type) (a b : list (jsstring * V)) (name : jsstring) :
  member (a ++ b) name
  = match member b name with
    | Some y => Some y
    | None => member a name
    end.
Proof.
  induction a as [|[k x] a IH]; cbn [app member].
  - destruct (member b name); reflexivity.
  - rewrite IH. destruct (member b name); reflexivity.
Qed.

Lemma member_map (V V' : Type) (f : V -> V') (o : list (jsstring * V)) (name : jsstring) :
  member (List.map (fun m => (fst m, f (snd m))) o) name = option_map f (member o name).
Proof.
  induction o as [|[k x] o IH]; cbn [List.map member fst snd]; [reflexivity|].
  rewrite IH. destruct (member o name); cbn [option_map]; [reflexivity|].
  destruct (jsstring_eqb k name); reflexivity.
Qed.

Section RequestFacts.
Context {TCursor TDecoded TEntity : Type}.
Variable this : CursorPaginator TCursor TDecoded TEntity.

Lemma requestCursor_returns options :
  exists decoded, requestCursor this options = Normal decoded.
Proof.
  unfold requestCursor. destruct (cursor options) as [[|c s]|]; eauto.
  apply decode_returns.
Qed.

End RequestFacts.




Section PrismaFacts.
Context {TEntity TPrismaModel W : Type}.
Variable findMany : Prisma.FindManyArgs (W := W) -> Completion (list TPrismaModel).
Variable toDomain : TPrismaModel -> TEntity.
Variable id : TEntity -> jsstring.

(** Building the arguments of the fetch never throws. *)
Lemma Prisma_args_returns (paginationOptions : CursorPaginationOptions)
    (queryOptions : option (QueryOptions W)) :
  exists args, Prisma.paginatedArgs id paginationOptions queryOptions = Normal args.
Proof.
  unfold Prisma.paginatedArgs.
  destruct (requestCursor_returns (Prisma.paginator id) paginationOptions) as [decoded ->].
  cbn [bind]. eauto.
Qed.

(** X15. The where clause of [buildWhereClause].  Under every key but
    [deletedAt] it holds what the caller's [where] holds there; under
    [deletedAt] it holds [null], whatever the caller asked for, unless
    [includeSoftDeleted] is true, and then the caller's filter stands. *)
Theorem buildWhereClause_members (options : option (QueryOptions W)) (name : jsstring) :
  let where0 := match options with
                | Some o => match where_ o with Some w => w | None => [] end
                | None => []
                end in
  let included := match options with
                  | Some o => match includeSoftDeleted o with Some b => b | None => false end
                  | None => false
                  end in
  member (Prisma.buildWhereClause options) name
  = if negb included && jsstring_eqb (str "deletedAt") name
    then Some Prisma.IsNull
    else option_map Prisma.Equals (member where0 name).
Proof.
  cbv zeta. unfold Prisma.buildWhereClause. cbv zeta.
  set (included := match options with
                   | Some o => match includeSoftDeleted o with Some b => b | None => false end
                   | None => false
                   end).
  assert (Hw : member (match options with
                       | Some o =>
                           match where_ o with
                           | Some w => [] ++ List.map (fun m => (fst m, Prisma.Equals (snd m))) w
                           | None => []
                           end
                       | None => []
                       end) name
               = option_map Prisma.Equals
                   (member match options with
                           | Some o => match where_ o with Some w => w | None => [] end
                           | None => []
                           end name)).
  { destruct options as [o|]; [|reflexivity].
    destruct (where_ o) as [w|]; [|reflexivity]. cbn [app]. apply member_map. }
  destruct included; cbn [negb andb]; [exact Hw|].
  rewrite member_app. cbn [member].
  destruct (jsstring_eqb (str "deletedAt") name); [reflexivity|exact Hw].
Qed.

Lemma round_double_exact (x : Z) : Z.abs x <= 2 ^ 53 -> round_double x = x.
Proof.
  intros H. unfold round_double. apply Z.leb_le in H. rewrite H. reflexivity.
Qed.

Lemma round_double_even (x : Z) : 2 ^ 53 < x -> Z.even (round_double x) = true.
Proof.
  intros H. unfold round_double.
  assert (Hx : 0 < x) by (change (2 ^ 53) with 9007199254740992 in H; lia).
  rewrite (Z.abs_eq x) by lia.
  destruct (Z.leb_spec x (2 ^ 53)) as [Hle|_]; [lia|]. cbv zeta.
  assert (He : 53 <= Z.log2 x).
  { rewrite <- (Z.log2_pow2 53) by lia. apply Z.log2_le_mono. lia. }
  replace (Z.log2 x - 52) with (Z.succ (Z.log2 x - 53)) by lia.
  rewrite Z.pow_succ_r by lia.
  rewrite Z.sgn_pos by exact Hx.
  rewrite Z.mul_1_l, Z.mul_comm, <- Z.mul_assoc, Z.even_mul. reflexivity.
Qed.

(** X16. The query of the Prisma [findManyPaginated].  Building it never
    throws; it is ordered by [id].  For a limit below 2^53 in absolute
    value it takes [limit + 1] records; from 2^53 on, where the limits
    are even numbers, the sum is rounded and it takes another number of
    records.  Without a cursor that decodes, its where clause is the one
    of [buildWhereClause]; with one, the filter on [id] is the one of
    the cursor, greater than its value when its direction is [forward]
    and less than it otherwise, whatever the caller's [where] holds for
    [id], and the other keys are those of [buildWhereClause]. *)
Theorem Prisma_paginatedArgs (paginationOptions : CursorPaginationOptions)
    (queryOptions : option (QueryOptions W)) :
  exists decoded args,
    requestCursor (Prisma.paginator id) paginationOptions = Normal decoded /\
    Prisma.paginatedArgs id paginationOptions queryOptions = Normal args /\
    (Z.abs (limit paginationOptions) < 2 ^ 53 ->
       Prisma.args_take args = limit paginationOptions + 1) /\
    (2 ^ 53 <= limit paginationOptions -> Z.even (limit paginationOptions) = true ->
       Prisma.args_take args <> limit paginationOptions + 1) /\
    Prisma.args_orderBy args = (str "id", fetchOrder decoded) /\
    match decoded with
    | None => Prisma.args_where args = Prisma.buildWhereClause queryOptions
    | Some dc =>
        member (Prisma.args_where args) (str "id")
        = Some (if is_forward (direction dc)
                then Prisma.Gt (value dc) else Prisma.Lt (value dc)) /\
        forall name, name <> str "id" ->
          member (Prisma.args_where args) name
          = member (Prisma.buildWhereClause queryOptions) name
    end.
Proof.
  destruct (requestCursor_returns (Prisma.paginator id) paginationOptions) as [decoded Hd].
  exists decoded. unfold Prisma.paginatedArgs. rewrite Hd. cbn [bind]. cbv zeta.
  eexists. split; [reflexivity|]. split; [reflexivity|].
  cbn [Prisma.args_take Prisma.args_orderBy Prisma.args_where]. unfold number_add.
  split; [|split; [|split; [reflexivity|]]].
  - intros Hsafe. apply round_double_exact.
    change (2 ^ 53) with 9007199254740992 in *. lia.
  - intros Hbig Heven Heq.
    pose proof (round_double_even (limit paginationOptions + 1)) as H.
    rewrite Heq in H. rewrite Z.even_add, Heven in H.
    change (2 ^ 53) with 9007199254740992 in *.
    specialize (H ltac:(lia)). discriminate H.
  - destruct decoded as [dc|].
    + split.
      * rewrite member_app. cbn [member]. rewrite jsstring_eqb_refl. reflexivity.
      * intros name Hne. rewrite member_app. cbn [member].
        destruct (jsstring_eqb (str "id") name) eqn:E; [|reflexivity].
        apply jsstring_eqb_eq in E. congruence.
    + apply app_nil_r.
Qed.

(** X17. What the Prisma [findManyPaginated] returns.  A failure of
    the database is the failure of the call.  From the records of
    the database, the page is the entities of the first [limit] of them,
    reversed when the direction is backward, and [count] is its
    length. *)
Theorem Prisma_findManyPaginated_page (paginationOptions : CursorPaginationOptions)
    (queryOptions : option (QueryOptions W)) :
  exists args dir,
    Prisma.paginatedArgs id paginationOptions queryOptions = Normal args /\
    effectiveDirection (Prisma.paginator id) paginationOptions = Normal dir /\
    (forall e, findMany args = Throw e ->
       Prisma.findManyPaginated findMany toDomain id paginationOptions queryOptions
       = Throw e) /\
    (forall records, findMany args = Normal records ->
       exists result,
         Prisma.findManyPaginated findMany toDomain id paginationOptions queryOptions
         = Normal (result,
                   presented dir (trimmed (List.map toDomain records)
                                    (limit paginationOptions))) /\
         count (pagination result)
         = Z.of_nat (List.length (trimmed records (limit paginationOptions)))).
Proof.
  destruct (Prisma_args_returns paginationOptions queryOptions) as [args Hargs].
  destruct (effectiveDirection_returns (Prisma.paginator id) paginationOptions)
    as [dir Hdir].
  exists args, dir. split; [exact Hargs|]. split; [exact Hdir|].
  unfold Prisma.findManyPaginated. rewrite Hargs. cbn [bind]. split.
  - intros e ->. reflexivity.
  - intros records ->. cbn [bind]. unfold mbind at 1, array_new. cbn [app List.length].
    destruct (buildResult_returns_page (Prisma.paginator id) [List.map toDomain records] 0%nat
                (List.map toDomain records) paginationOptions eq_refl)
      as (dir' & r & h' & (Hdir' & Hrun & Hpage) & _ & Hcount & _).
    assert (dir' = dir) by congruence. subst dir'.
    exists r. rewrite Hrun, Hpage. split; [reflexivity|].
    rewrite Hcount, length_presented.
    unfold trimmed, overfetched, slice. rewrite !length_map.
    destruct (_ <? _); [|rewrite length_map; reflexivity].
    rewrite !length_firstn, !length_skipn, !length_map. reflexivity.
Qed.

End PrismaFacts.

Section FirestoreFacts.
Context {TEntity D W : Type}.
Variable get : list (Firestore.QueryCall (W := W)) -> Completion (list (Firestore.Document (D := D))).
Variable toDomain : jsstring -> D -> TEntity.



End FirestoreFacts.

(** ** Examples *)

Lemma encode_url_safe_witness :
  is_jsstring (serializeCursor (createIdPaginator id) [105; 100; 47; 55357; 34; 10; 233]) /\
  encode (createIdPaginator id) [105; 100; 47; 55357; 34; 10; 233] backward <> [] /\
  Forall url_safe (encode (createIdPaginator id) [105; 100; 47; 55357; 34; 10; 233] backward).
Proof.
  assert (H : is_jsstring
                (serializeCursor (createIdPaginator id) [105; 100; 47; 55357; 34; 10; 233]))
    by (repeat constructor; unfold code_unit; lia).
  split; [exact H|].
  exact (encode_url_safe (createIdPaginator id) [105; 100; 47; 55357; 34; 10; 233] backward H).
Defined.

Lemma encode_injective_witness :
  is_jsstring (serializeCursor (createIdPaginator id) (str "id-7")) /\
  encode (createIdPaginator id) (str "id-7") forward
  = encode (createIdPaginator id) (str "id-7") forward /\
  serializeCursor (createIdPaginator id) (str "id-7")
  = serializeCursor (createIdPaginator id) (str "id-7") /\ forward = forward.
Proof.
  assert (H : is_jsstring (serializeCursor (createIdPaginator id) (str "id-7")))
    by apply is_jsstring_str.
  split; [exact H|]. split; [reflexivity|].
  exact (encode_injective (createIdPaginator id) (str "id-7") (str "id-7") forward forward
           H H eq_refl).
Defined.

Lemma buildResult_frame_witness :
  elements [createEntities 3; createEntities 2] 1%nat = Some (createEntities 2) /\
  exists dir r h',
    effectiveDirection (createIdPaginator id)
      {| limit := 2; cursor := None; defaultDirection := Some backward |} = Normal dir /\
    buildResult (createIdPaginator id) 1%nat
      {| limit := 2; cursor := None; defaultDirection := Some backward |}
      [createEntities 3; createEntities 2] = Normal (r, h') /\
    (forall other l, other <> 1%nat ->
       elements [createEntities 3; createEntities 2] other = Some l ->
       elements h' other = Some l) /\
    (overfetched (createEntities 2) 2 = true ->
       data r = 2%nat /\ List.length h' = 3%nat /\
       elements h' 1%nat = Some (createEntities 2)) /\
    (overfetched (createEntities 2) 2 = false ->
       data r = 1%nat /\ List.length h' = 2%nat /\
       elements h' 1%nat = Some (presented dir (createEntities 2))).
Proof.
  assert (H : elements [createEntities 3; createEntities 2] 1%nat = Some (createEntities 2))
    by reflexivity.
  split; [exact H|].
  exact (buildResult_frame (createIdPaginator id) [createEntities 3; createEntities 2] 1%nat
           (createEntities 2)
           {| limit := 2; cursor := None; defaultDirection := Some backward |} H).
Defined.

Lemma page_size_witness :
  elements [createEntities 3] 0%nat = Some (createEntities 3) /\
  0 <= 0 /\
  exists dir r h' page,
    returns_page (createIdPaginator id) [createEntities 3] 0%nat
      {| limit := 0; cursor := None; defaultDirection := None |} dir r h' page /\
    Z.of_nat (List.length page) = Z.min 0 (Z.of_nat (List.length (createEntities 3))) /\
    count (pagination r) = Z.min 0 (Z.of_nat (List.length (createEntities 3))).
Proof.
  assert (H1 : elements [createEntities 3] 0%nat = Some (createEntities 3)) by reflexivity.
  assert (H2 : 0 <= 0) by lia.
  split; [exact H1|]. split; [exact H2|].
  exact (page_size (createIdPaginator id) [createEntities 3] 0%nat (createEntities 3)
           {| limit := 0; cursor := None; defaultDirection := None |} H1 H2).
Defined.

Lemma returned_cursors_navigate_witness :
  elements [createEntities 3] 0%nat = Some (createEntities 3) /\
  Forall (fun e => is_jsstring (id e)) (createEntities 3) /\
  exists dir r h' page,
    returns_page (createIdPaginator id) [createEntities 3] 0%nat
      {| limit := 2; cursor := None; defaultDirection := None |} dir r h' page /\
    (forall token, nextCursor (pagination r) = Some token ->
       exists lastItem,
         last_error page = Some lastItem /\
         decode (createIdPaginator id) token
         = Normal (Some {| value := JString (id lastItem);
                           direction := JString (str "forward") |}) /\
         forall n d0,
           effectiveDirection (createIdPaginator id)
             {| limit := n; cursor := Some token; defaultDirection := d0 |}
           = Normal (JString (str "forward"))) /\
    (forall token, prevCursor (pagination r) = Some token ->
       exists firstItem,
         hd_error page = Some firstItem /\
         decode (createIdPaginator id) token
         = Normal (Some {| value := JString (id firstItem);
                           direction := JString (str "backward") |}) /\
         forall n d0,
           effectiveDirection (createIdPaginator id)
             {| limit := n; cursor := Some token; defaultDirection := d0 |}
           = Normal (JString (str "backward"))).
Proof.
  assert (H1 : elements [createEntities 3] 0%nat = Some (createEntities 3)) by reflexivity.
  assert (H2 : Forall (fun e => is_jsstring (id e)) (createEntities 3))
    by (repeat constructor; unfold code_unit; lia).
  split; [exact H1|]. split; [exact H2|].
  exact (returned_cursors_navigate id [createEntities 3] 0%nat (createEntities 3)
           {| limit := 2; cursor := None; defaultDirection := None |} H1 H2).
Defined.

(** X19. The round trip of the value object: [Cursor.decode] reads back
    the cursor [encode] wrote, whatever string its value is. *)
Theorem Cursor_decode_encode (c : Cursor.Cursor) :
  is_jsstring (Cursor.value c) -> Cursor.decode (Cursor.encode c) = Normal (Some c).
Proof.
  intros H. destruct c as [v d].
  exact (proj2 (round_trip_identity_strategy v d H)).
Qed.

Lemma Cursor_decode_encode_witness :
  is_jsstring (Cursor.value (Cursor.backward [105; 100; 47; 55357; 34; 10; 233])) /\
  Cursor.decode (Cursor.encode (Cursor.backward [105; 100; 47; 55357; 34; 10; 233]))
  = Normal (Some (Cursor.backward [105; 100; 47; 55357; 34; 10; 233])).
Proof.
  assert (H : is_jsstring (Cursor.value (Cursor.backward [105; 100; 47; 55357; 34; 10; 233])))
    by (repeat constructor; unfold code_unit; lia).
  split; [exact H|].
  exact (Cursor_decode_encode (Cursor.backward [105; 100; 47; 55357; 34; 10; 233]) H).
Defined.
